(** * Inventory chatbot: response normalisation and session history

    A shallow embedding of [llm_client.py] ([LLMClient._clean_json_string],
    [LLMClient.chat]) and of [server.py] ([RequestHandler._handle_chat]),
    with the parts of the Python runtime they rely on ([str] methods, the
    [json] decoder, the two regular expressions of the fallback stage).
    After these come [env_loader.py] ([load_env], [get_env]), the start of
    a client ([LLMClient.__init__], [_detect_provider], [_create_client]),
    the [json] encoder behind the stored turns, and [RequestHandler.do_POST]
    with the whole of [_handle_chat].

    Conventions.
    - A Python [str] is a sequence of Unicode code points: [pystr] is
      [list N].
    - An exception is a value: code that can raise returns a sum, and the
      [try]/[except] of [chat] is a [match] on it.
    - The backend ([self.client.chat.completions.create]) and the wall
      clock are outside the program; they are arguments of [chat]. *)

From Stdlib Require Import NArith ZArith Ascii String.
From stdpp Require Import gmap strings list.

Abbreviation pystr := (list N).

Local Open Scope N_scope.

(** [py "abc"] is the Python literal ['abc'] (ASCII only). *)
Definition py (s : string) : pystr := map N_of_ascii (list_ascii_of_string s).

Module Chr.
Definition TAB : N := 9.
Definition NL : N := 10.
Definition CR : N := 13.
Definition SPACE : N := 32.
Definition QUOTE : N := 34.
Definition PLUS : N := 43.
Definition COMMA : N := 44.
Definition MINUS : N := 45.
Definition DOT : N := 46.
Definition SLASH : N := 47.
Definition ZERO : N := 48.
Definition COLON : N := 58.
Definition LBRACKET : N := 91.
Definition BACKSLASH : N := 92.
Definition RBRACKET : N := 93.
Definition BACKTICK : N := 96.
Definition LBRACE : N := 123.
Definition RBRACE : N := 125.
Definition DEL : N := 127.
End Chr.
Import Chr.

(** ** Python [str] primitives *)

Module Str.

(** [str.isspace] on one code point; also the class [\s] of [re] on a
    [str] pattern. *)
Definition isspace (c : N) : bool :=
  ((9 <=? c) && (c <=? 13)) || ((28 <=? c) && (c <=? 32))
  || (c =? 133) || (c =? 160) || (c =? 5760)
  || ((8192 <=? c) && (c <=? 8202))
  || (c =? 8232) || (c =? 8233) || (c =? 8239) || (c =? 8287)
  || (c =? 12288).

Fixpoint lstrip (s : pystr) : pystr :=
  match s with
  | c :: r => if isspace c then lstrip r else s
  | [] => []
  end.

Definition rstrip (s : pystr) : pystr := rev (lstrip (rev s)).

(** [s.strip()] *)
Definition strip (s : pystr) : pystr := rstrip (lstrip s).

(** [s.startswith(p)] *)
Fixpoint startswith (p s : pystr) : bool :=
  match p, s with
  | [], _ => true
  | a :: p', b :: s' => (a =? b) && startswith p' s'
  | _ :: _, [] => false
  end.

(** [s.split("\n")]: never empty. *)
Fixpoint split_nl (s : pystr) : list pystr :=
  match s with
  | [] => [[]]
  | c :: r =>
      if c =? NL then [] :: split_nl r
      else match split_nl r with
           | l :: ls => (c :: l) :: ls
           | [] => [[c]]
           end
  end.

(** ["\n".join(lines)] *)
Fixpoint join_nl (lines : list pystr) : pystr :=
  match lines with
  | [] => []
  | [l] => l
  | l :: ls => l ++ NL :: join_nl ls
  end.

(** [s.replace(old, new)] for a two-character [old = a b]: leftmost,
    non-overlapping occurrences. *)
Fixpoint replace2 (a b : N) (new : pystr) (s : pystr) : pystr :=
  match s with
  | x :: r =>
      match r with
      | y :: r' =>
          if (x =? a) && (y =? b) then new ++ replace2 a b new r'
          else x :: replace2 a b new r
      | [] => [x]
      end
  | [] => []
  end.

(** [lines[1:-1]] and [lines[-1]] *)
Definition slice_1_m1 {A} (l : list A) : list A := removelast (tail l).
Definition slice_1 {A} (l : list A) : list A := tail l.

End Str.

(** ** [LLMClient._clean_json_string] *)

Module Clean.

(** The class [[\x00-\x08\x0b\x0c\x0e-\x1f\x7f]] of the first
    [re.sub]. *)
Definition is_ctl (c : N) : bool :=
  (c <=? 8) || (c =? 11) || (c =? 12) || ((14 <=? c) && (c <=? 31))
  || (c =? DEL).

(** [re.sub(r'[...]', '', s)] *)
Definition remove_ctl (s : pystr) : pystr :=
  List.filter (fun c => negb (is_ctl c)) s.

(** The loop variables [result], [in_string], [escape_next]. *)
Record scan := Scan {
  result : pystr;
  in_string : bool;
  escape_next : bool
}.

(** One iteration of [for char in s]. *)
Definition step (st : scan) (char : N) : scan :=
  if escape_next st then
    Scan (result st ++ [char]) (in_string st) false
  else if char =? BACKSLASH then
    Scan (result st ++ [char]) (in_string st) true
  else if char =? QUOTE then
    Scan (result st ++ [char]) (negb (in_string st)) (escape_next st)
  else if in_string st && (char =? NL) then
    Scan (result st ++ [BACKSLASH; 110]) (in_string st) (escape_next st)
  else if in_string st && (char =? TAB) then
    Scan (result st ++ [BACKSLASH; 116]) (in_string st) (escape_next st)
  else
    Scan (result st ++ [char]) (in_string st) (escape_next st).

Definition _clean_json_string (s : pystr) : pystr :=
  result (fold_left step (remove_ctl s) (Scan [] false false)).

(** What the loop appends to [result] from the state [in_string],
    [escape_next] on ([scan_from_spec]). *)
Fixpoint scan_from (ins esc : bool) (s : pystr) : pystr :=
  match s with
  | [] => []
  | c :: r =>
      if esc then c :: scan_from ins false r
      else if c =? BACKSLASH then c :: scan_from ins true r
      else if c =? QUOTE then c :: scan_from (negb ins) false r
      else if ins && (c =? NL) then BACKSLASH :: 110 :: scan_from ins false r
      else if ins && (c =? TAB) then BACKSLASH :: 116 :: scan_from ins false r
      else c :: scan_from ins false r
  end.

End Clean.

(** ** Fence removal, the first stage of [chat] after [content.strip()] *)

Definition FENCE : pystr := [BACKTICK; BACKTICK; BACKTICK].

Definition strip_fence (content : pystr) : pystr :=
  if Str.startswith FENCE content then
    let lines := Str.split_nl content in
    let lines :=
      if Str.startswith FENCE (Str.strip (List.last lines []))
      then Str.slice_1_m1 lines
      else Str.slice_1 lines in
    Str.join_nl lines
  else content.

(** ** The [json] decoder ([json.loads] with the default decoder)

    [Json.loads true] is [json.loads]: [strict=True], so a control
    character below U+0020 inside a string literal is an error.  With
    [strict := false] the scanner accepts a raw newline or tab inside a
    string literal and nothing else; the program never runs it, it states
    what "valid JSON except for a raw newline or tab in a string" means.

    Numbers are kept as their three lexemes (integer, fraction, exponent)
    and [None] stands for [JSONDecodeError].  The interpreter's recursion
    limit and its limit on the number of digits of an [int] are not
    modelled. *)

Module Json.

#[local] Set Warnings "-register-all".

Inductive const := NaN | Infinity | NegInfinity.

Inductive value :=
| Null
| Bool (b : bool)
| Number (integer frac exp : pystr)
| Const (c : const)
| String (s : pystr)
| Array (items : list value)
| Object (pairs : list (pystr * value)).

(** [WHITESPACE = re.compile(r'[ \t\n\r]*')] *)
Definition is_ws (c : N) : bool :=
  (c =? SPACE) || (c =? TAB) || (c =? NL) || (c =? CR).

Fixpoint skip_ws (s : pystr) : pystr :=
  match s with
  | c :: r => if is_ws c then skip_ws r else s
  | [] => []
  end.

(** *** Strings: [scanstring], entered after the opening quote *)

(** [BACKSLASH] table of [json.decoder] *)
Definition backslash (esc : N) : option N :=
  if esc =? QUOTE then Some QUOTE
  else if esc =? BACKSLASH then Some BACKSLASH
  else if esc =? SLASH then Some SLASH
  else if esc =? 98 then Some 8
  else if esc =? 102 then Some 12
  else if esc =? 110 then Some NL
  else if esc =? 114 then Some CR
  else if esc =? 116 then Some TAB
  else None.

Definition hexval (c : N) : option N :=
  if (48 <=? c) && (c <=? 57) then Some (c - 48)
  else if (65 <=? c) && (c <=? 70) then Some (c - 55)
  else if (97 <=? c) && (c <=? 102) then Some (c - 87)
  else None.

(** [_decode_uXXXX]: four hexadecimal digits *)
Definition decode_uXXXX (a b c d : N) : option N :=
  match hexval a, hexval b, hexval c, hexval d with
  | Some x, Some y, Some z, Some w => Some (x * 4096 + y * 256 + z * 16 + w)
  | _, _, _, _ => None
  end.

Definition is_high (u : N) : bool := (55296 <=? u) && (u <=? 56319).
Definition is_low (u : N) : bool := (56320 <=? u) && (u <=? 57343).
Definition join_surrogates (u u2 : N) : N :=
  65536 + ((u - 55296) * 1024 + (u2 - 56320)).

(** A raw character below U+0020 inside a literal. *)
Definition raw_allowed (strict : bool) (c : N) : bool :=
  negb strict && ((c =? NL) || (c =? TAB)).

Definition consc (c : N) (r : option (pystr * pystr)) : option (pystr * pystr) :=
  match r with
  | Some (s, rest) => Some (c :: s, rest)
  | None => None
  end.

Fixpoint scanstring (strict : bool) (s : pystr) : option (pystr * pystr) :=
  match s with
  | [] => None
  | c :: r =>
      if c =? QUOTE then Some ([], r)
      else if c =? BACKSLASH then
        match r with
        | [] => None
        | esc :: r1 =>
            if esc =? 117 then
              match r1 with
              | h1 :: h2 :: h3 :: h4 :: r2 =>
                  match decode_uXXXX h1 h2 h3 h4 with
                  | None => None
                  | Some uni =>
                      match r2 with
                      | b :: u :: l1 :: l2 :: l3 :: l4 :: r3 =>
                          if is_high uni && (b =? BACKSLASH) && (u =? 117) then
                            match decode_uXXXX l1 l2 l3 l4 with
                            | None => None
                            | Some uni2 =>
                                if is_low uni2
                                then consc (join_surrogates uni uni2)
                                           (scanstring strict r3)
                                else consc uni (scanstring strict r2)
                            end
                          else consc uni (scanstring strict r2)
                      | _ => consc uni (scanstring strict r2)
                      end
                  end
              | _ => None
              end
            else
              match backslash esc with
              | Some char => consc char (scanstring strict r1)
              | None => None
              end
        end
      else if c <? 32 then
        if raw_allowed strict c then consc c (scanstring strict r) else None
      else consc c (scanstring strict r)
  end.

(** What follows a [\uXXXX] escape of value [uni]: an error ([None]), no
    low surrogate to join ([Some None]), or the joined code point and the
    text after the second escape. *)
Definition low_after (uni : N) (r2 : pystr) : option (option (N * pystr)) :=
  match r2 with
  | b :: u :: l1 :: l2 :: l3 :: l4 :: r3 =>
      if is_high uni && (b =? BACKSLASH) && (u =? 117) then
        match decode_uXXXX l1 l2 l3 l4 with
        | None => None
        | Some uni2 =>
            if is_low uni2 then Some (Some (join_surrogates uni uni2, r3))
            else Some None
        end
      else Some None
  | _ => Some None
  end.

(** [Lit strict x s rest]: the text [x], read from behind an opening quote,
    is a string literal of value [s] followed by [rest].  It is
    [scanstring] as a relation ([scanstring_Lit]). *)
Inductive Lit (strict : bool) : pystr -> pystr -> pystr -> Prop :=
| Lit_end rest : Lit strict (QUOTE :: rest) [] rest
| Lit_char c r s rest :
    c <> QUOTE -> c <> BACKSLASH ->
    (c <? 32) = false \/ raw_allowed strict c = true ->
    Lit strict r s rest ->
    Lit strict (c :: r) (c :: s) rest
| Lit_esc e char r s rest :
    e <> 117 -> backslash e = Some char ->
    Lit strict r s rest ->
    Lit strict (BACKSLASH :: e :: r) (char :: s) rest
| Lit_u h1 h2 h3 h4 uni r s rest :
    decode_uXXXX h1 h2 h3 h4 = Some uni ->
    low_after uni r = Some None ->
    Lit strict r s rest ->
    Lit strict (BACKSLASH :: 117 :: h1 :: h2 :: h3 :: h4 :: r) (uni :: s) rest
| Lit_pair h1 h2 h3 h4 uni r joined r3 s rest :
    decode_uXXXX h1 h2 h3 h4 = Some uni ->
    low_after uni r = Some (Some (joined, r3)) ->
    Lit strict r3 s rest ->
    Lit strict (BACKSLASH :: 117 :: h1 :: h2 :: h3 :: h4 :: r) (joined :: s) rest.

(** *** Numbers: [NUMBER_RE], digits are ASCII *)

Definition is_digit (c : N) : bool := (48 <=? c) && (c <=? 57).

Fixpoint digits (s : pystr) : pystr * pystr :=
  match s with
  | c :: r => if is_digit c then let '(d, r') := digits r in (c :: d, r')
              else ([], s)
  | [] => ([], [])
  end.

(** The alternation [0|[1-9][0-9]*] of [NUMBER_RE] *)
Definition lex_nat (s : pystr) : option (pystr * pystr) :=
  match s with
  | c :: r =>
      if c =? ZERO then Some ([c], r)
      else if is_digit c then let '(d, r') := digits r in Some (c :: d, r')
      else None
  | [] => None
  end.

(** The integer group of [NUMBER_RE]: an optional minus sign, then
    [lex_nat] *)
Definition lex_int (s : pystr) : option (pystr * pystr) :=
  match s with
  | c :: r =>
      if c =? MINUS then
        match lex_nat r with
        | Some (d, r') => Some (c :: d, r')
        | None => None
        end
      else lex_nat s
  | [] => None
  end.

(** [(\.[0-9]+)?] *)
Definition lex_frac (s : pystr) : pystr * pystr :=
  match s with
  | c :: r =>
      if c =? DOT then
        match digits r with
        | ([], _) => ([], s)
        | (d, r') => (c :: d, r')
        end
      else ([], s)
  | [] => ([], [])
  end.

(** [([eE][-+]?[0-9]+)?] *)
Definition lex_exp (s : pystr) : pystr * pystr :=
  match s with
  | e :: r =>
      if (e =? 101) || (e =? 69) then
        match r with
        | sg :: r1 =>
            if (sg =? MINUS) || (sg =? PLUS) then
              match digits r1 with
              | ([], _) => ([], s)
              | (d, r') => (e :: sg :: d, r')
              end
            else
              match digits r with
              | ([], _) => ([], s)
              | (d, r') => (e :: d, r')
              end
        | [] => ([], s)
        end
      else ([], s)
  | [] => ([], [])
  end.

Definition match_number (s : pystr) : option (value * pystr) :=
  match lex_int s with
  | Some (i, r) =>
      let '(f, r1) := lex_frac r in
      let '(e, r2) := lex_exp r1 in
      Some (Number i f e, r2)
  | None => None
  end.

(** [string[idx:idx + n] == lit] *)
Definition literal (lit : pystr) (s : pystr) : option pystr :=
  if Str.startswith lit s then Some (drop (length lit) s) else None.

(** *** Containers: [JSONArray] and [JSONObject]

    [scan] is [scan_once]; the counter [n] bounds the number of items. *)

Section Containers.
Variable strict : bool.
Variable scan : pystr -> option (value * pystr).

Fixpoint array_items (n : nat) (s : pystr) : option (list value * pystr) :=
  match n with
  | O => None
  | S n' =>
      match scan s with
      | None => None
      | Some (v, r) =>
          match skip_ws r with
          | c :: r' =>
              if c =? RBRACKET then Some ([v], r')
              else if c =? COMMA then
                match array_items n' (skip_ws r') with
                | Some (vs, r'') => Some (v :: vs, r'')
                | None => None
                end
              else None
          | [] => None
          end
      end
  end.

Definition JSONArray (n : nat) (s : pystr) : option (value * pystr) :=
  match skip_ws s with
  | c :: r =>
      if c =? RBRACKET then Some (Array [], r)
      else match array_items n (skip_ws s) with
           | Some (vs, r') => Some (Array vs, r')
           | None => None
           end
  | [] => None
  end.

(** One iteration of the [while True] of [JSONObject], entered after
    the opening quote of a key. *)
Fixpoint object_pairs (n : nat) (s : pystr)
  : option (list (pystr * value) * pystr) :=
  match n with
  | O => None
  | S n' =>
      match scanstring strict s with
      | None => None
      | Some (key, r) =>
          match skip_ws r with
          | c :: r1 =>
              if c =? COLON then
                match scan (skip_ws r1) with
                | None => None
                | Some (v, r2) =>
                    match skip_ws r2 with
                    | c2 :: r3 =>
                        if c2 =? RBRACE then Some ([(key, v)], r3)
                        else if c2 =? COMMA then
                          match skip_ws r3 with
                          | q :: r4 =>
                              if q =? QUOTE then
                                match object_pairs n' r4 with
                                | Some (ps, r5) => Some ((key, v) :: ps, r5)
                                | None => None
                                end
                              else None
                          | [] => None
                          end
                        else None
                    | [] => None
                    end
                end
              else None
          | [] => None
          end
      end
  end.

Definition JSONObject (n : nat) (s : pystr) : option (value * pystr) :=
  match skip_ws s with
  | c :: r =>
      if c =? RBRACE then Some (Object [], r)
      else if c =? QUOTE then
        match object_pairs n r with
        | Some (ps, r') => Some (Object ps, r')
        | None => None
        end
      else None
  | [] => None
  end.
End Containers.

(** The branches of [scan_once] after the string, object and array ones:
    [null], [true], [false], a number, [NaN], [Infinity], [-Infinity], in
    this order. *)
Definition scan_scalar (s : pystr) : option (value * pystr) :=
  match literal (py "null") s with
  | Some r' => Some (Null, r')
  | None =>
  match literal (py "true") s with
  | Some r' => Some (Bool true, r')
  | None =>
  match literal (py "false") s with
  | Some r' => Some (Bool false, r')
  | None =>
  match match_number s with
  | Some res => Some res
  | None =>
  match literal (py "NaN") s with
  | Some r' => Some (Const NaN, r')
  | None =>
  match literal (py "Infinity") s with
  | Some r' => Some (Const Infinity, r')
  | None =>
  match literal (py "-Infinity") s with
  | Some r' => Some (Const NegInfinity, r')
  | None => None
  end end end end end end end.

(** [scan_once]; [fuel] bounds the nesting depth and the number of items
    of a container.  [decode] starts with more than the length of the
    text, which no value of the text exceeds ([scan_once_need],
    [scan_once_fuel]). *)
Fixpoint scan_once (strict : bool) (fuel : nat) (s : pystr)
  : option (value * pystr) :=
  match fuel with
  | O => None
  | S fuel' =>
      match s with
      | [] => None
      | nextchar :: r =>
          if nextchar =? QUOTE then
            match scanstring strict r with
            | Some (str, r') => Some (String str, r')
            | None => None
            end
          else if nextchar =? LBRACE then
            JSONObject strict (scan_once strict fuel') fuel' r
          else if nextchar =? LBRACKET then
            JSONArray (scan_once strict fuel') fuel' r
          else scan_scalar s
      end
  end.

(** The fuel a value takes: one more than the nesting depth and than the
    number of items of any container in it. *)
Fixpoint need (v : value) : nat :=
  match v with
  | Array items => S (Nat.max (length items) (list_max (map need items)))
  | Object pairs =>
      S (Nat.max (length pairs) (list_max (map (fun p => need p.2) pairs)))
  | _ => 1%nat
  end.

(** [JSONDecoder.decode] *)
Definition decode (strict : bool) (s : pystr) : option value :=
  match scan_once strict (S (length s)) (skip_ws s) with
  | Some (obj, r) =>
      match skip_ws r with
      | [] => Some obj
      | _ :: _ => None
      end
  | None => None
  end.

Definition loads (s : pystr) : option value := decode true s.

(** [dict(pairs).get(key)]: the last binding of a repeated key wins. *)
Fixpoint dict_get (pairs : list (pystr * value)) (key : pystr) : option value :=
  match pairs with
  | [] => None
  | (k, v) :: rest =>
      match dict_get rest key with
      | Some v' => Some v'
      | None => if decide (k = key) then Some v else None
      end
  end.

(** [type(v).__name__] *)
Definition type_name (v : value) : pystr :=
  match v with
  | Null => py "NoneType"
  | Bool _ => py "bool"
  | Number _ [] [] => py "int"
  | Number _ _ _ => py "float"
  | Const _ => py "float"
  | String _ => py "str"
  | Array _ => py "list"
  | Object _ => py "dict"
  end.

End Json.

(** ** Regular expressions: a backtracking matcher for the fragment of
    [re] the fallback stage uses

    Alternatives are tried in the order of [re]: a greedy star takes one
    more iteration first and gives it back on failure.  [Group] is the one
    capturing group; [re.DOTALL] makes [Any] match every character. *)

Module Re.

Inductive re :=
| Eps
| Chr (c : N)
| Any
| Cls (p : N -> bool)
| Cat (r1 r2 : re)
| Star (r : re)
| Group (r : re).

(** A match object, reduced to [m.group(1)]; [None] when the group did
    not take part in the match. *)
Definition Match := option pystr.

(** The iterations of a greedy star whose body is [body] and whose
    continuation is [k]; an iteration has to consume a character, and [n]
    bounds the iterations by the length of the text. *)
Fixpoint star_loop
    (body : pystr -> Match -> (pystr -> Match -> option Match) -> option Match)
    (k : pystr -> Match -> option Match)
    (n : nat) (s : pystr) (g : Match) {struct n} : option Match :=
  match n with
  | O => k s g
  | S n' =>
      match body s g
              (fun s1 g1 =>
                 if (length s1 <? length s)%nat
                 then star_loop body k n' s1 g1 else None) with
      | Some m => Some m
      | None => k s g
      end
  end.

Fixpoint rmatch (r : re) (s : pystr) (g : Match)
    (k : pystr -> Match -> option Match) {struct r} : option Match :=
  match r with
  | Eps => k s g
  | Chr c =>
      match s with
      | c' :: s' => if c' =? c then k s' g else None
      | [] => None
      end
  | Any =>
      match s with
      | _ :: s' => k s' g
      | [] => None
      end
  | Cls p =>
      match s with
      | c' :: s' => if p c' then k s' g else None
      | [] => None
      end
  | Cat r1 r2 => rmatch r1 s g (fun s1 g1 => rmatch r2 s1 g1 k)
  | Group r1 =>
      rmatch r1 s g
        (fun s1 _ => k s1 (Some (take (length s - length s1)%nat s)))
  | Star r1 => star_loop (rmatch r1) k (length s) s g
  end.

(** [re.match(r, s)] *)
Definition match_here (r : re) (s : pystr) : option Match :=
  rmatch r s None (fun _ g => Some g).

(** [re.search(r, s)]: the leftmost start position that matches. *)
Fixpoint search (r : re) (s : pystr) : option Match :=
  match match_here r s with
  | Some m => Some m
  | None =>
      match s with
      | [] => None
      | _ :: s' => search r s'
      end
  end.

Definition lit (l : pystr) : re := fold_right (fun c r => Cat (Chr c) r) Eps l.

Definition not_quote (c : N) : bool := negb (c =? QUOTE).

End Re.

(** The pattern of the fallback stage for the key [KEY], one of [answer]
    and [sql_query].  Writing Q for the double quote and B for the
    backslash, the source pattern is
      Q KEY Q \s* : \s* Q ( [^Q]* (?: B . [^Q]* )* ) Q
    compiled with [re.DOTALL]. *)
Definition field_re (key : pystr) : Re.re :=
  Re.Cat (Re.lit (QUOTE :: key ++ [QUOTE]))
    (Re.Cat (Re.Star (Re.Cls Str.isspace))
      (Re.Cat (Re.Chr COLON)
        (Re.Cat (Re.Star (Re.Cls Str.isspace))
          (Re.Cat (Re.Chr QUOTE)
            (Re.Cat
              (Re.Group
                (Re.Cat (Re.Star (Re.Cls Re.not_quote))
                  (Re.Star
                    (Re.Cat (Re.Chr BACKSLASH)
                      (Re.Cat Re.Any (Re.Star (Re.Cls Re.not_quote)))))))
              (Re.Chr QUOTE)))))).

(** The two [replace] calls on [group(1)]: backslash-n becomes a newline,
    then backslash-quote becomes a quote. *)
Definition unescape (g : pystr) : pystr :=
  Str.replace2 BACKSLASH QUOTE [QUOTE] (Str.replace2 BACKSLASH 110 [NL] g).

(** ** [models.py] and the values [chat] handles *)

Inductive provider_t := openai | azure | ollama.
Inductive status_t := ok | error.
Inductive role_t := system | user | assistant.

(** A message dict [{"role": ..., "content": ...}]; a turn of a session. *)
Record Msg := Message { role : role_t; content : pystr }.

Record TokenUsage := {
  prompt_tokens : Z;
  completion_tokens : Z;
  total_tokens : Z
}.

(** The dict [chat] returns.  The two texts are whatever the decoder found
    under the keys, so they are JSON values; [error_message] is [None]
    when the dict has no such key, which is what [ChatResponse] makes of
    it. *)
Record ChatResult := {
  natural_language_answer : Json.value;
  sql_query : Json.value;
  token_usage : TokenUsage;
  latency_ms : Z;
  provider : provider_t;
  model : pystr;
  status : status_t;
  error_message : option pystr
}.

Record LLMClient := { self_provider : provider_t; self_model : pystr }.

(** [kwargs] of [self.client.chat.completions.create] *)
Record kwargs := {
  kw_model : pystr;
  kw_messages : list Msg;
  kw_temperature : Z;
  kw_response_format : option pystr
}.

(** [response.usage]: the object and each attribute may be missing or
    [None]. *)
Record Usage := {
  u_prompt_tokens : option Z;
  u_completion_tokens : option Z;
  u_total_tokens : option Z
}.

(** Exceptions below [Exception], with [str(e)]. *)
Inductive exn :=
| JSONDecodeError (msg : pystr)
| OtherException (msg : pystr).

(** What one backend call does: it raises, or it returns a response whose
    [choices[0].message.content] is a [str] or [None]. *)
Inductive outcome :=
| Raises (e : exn)
| Returns (content : option pystr) (usage : option Usage).

(** The variables [content] and [token_usage] at the point of a [raise]:
    [None] when not yet bound to a [str] (respectively not yet bound). *)
Record locals := {
  l_content : option pystr;
  l_token_usage : option TokenUsage
}.

(** [getattr(usage, name, 0) or 0] *)
Definition usage_field (usage : option Usage) (f : Usage -> option Z) : Z :=
  match usage with
  | Some u => default 0%Z (f u)
  | None => 0%Z
  end.

Definition ZERO_USAGE : TokenUsage :=
  {| prompt_tokens := 0; completion_tokens := 0; total_tokens := 0 |}.

(** ** [LLMClient.chat] *)

Section Chat.
(** The module constant, whose text embeds [SCHEMA_DDL]. *)
Variable SYSTEM_PROMPT : pystr.
(** [str(e)] for the [JSONDecodeError] that [json.loads] raises on a
    text. *)
Variable decode_error : pystr -> pystr.
Variable self : LLMClient.
(** [self.client.chat.completions.create] during this call, and the
    elapsed time in milliseconds when the result is built. *)
Variable create : kwargs -> outcome.
Variable elapsed : Z.

(** [full_messages] and [kwargs] *)
Definition request_kwargs (messages session_history : list Msg) : kwargs :=
  let full_messages :=
    Message system SYSTEM_PROMPT :: session_history ++ messages in
  {| kw_model := self_model self;
     kw_messages := full_messages;
     kw_temperature := 0;
     kw_response_format :=
       match self_provider self with
       | openai | azure => Some (py "json_object")
       | ollama => None
       end |}.

(** The body of [try]. *)
Definition chat_try (messages session_history : list Msg)
  : ChatResult + exn * locals :=
  match create (request_kwargs messages session_history) with
  | Raises e => inr (e, {| l_content := None; l_token_usage := None |})
  | Returns content usage =>
      let latency_ms := elapsed in
      let token_usage :=
        {| prompt_tokens := usage_field usage u_prompt_tokens;
           completion_tokens := usage_field usage u_completion_tokens;
           total_tokens := usage_field usage u_total_tokens |} in
      match content with
      | None =>
          inr (OtherException
                 (py "'NoneType' object has no attribute 'strip'"),
               {| l_content := None; l_token_usage := Some token_usage |})
      | Some content =>
          let content := Str.strip content in
          let content := strip_fence content in
          let content := Clean._clean_json_string content in
          let here :=
            {| l_content := Some content;
               l_token_usage := Some token_usage |} in
          match Json.loads content with
          | None => inr (JSONDecodeError (decode_error content), here)
          | Some (Json.Object parsed) =>
              inl {| natural_language_answer :=
                       default (Json.String []) (Json.dict_get parsed (py "answer"));
                     sql_query :=
                       default (Json.String []) (Json.dict_get parsed (py "sql_query"));
                     token_usage := token_usage;
                     latency_ms := latency_ms;
                     provider := self_provider self;
                     model := self_model self;
                     status := ok;
                     error_message := None |}
          | Some parsed =>
              inr (OtherException
                     (py "'" ++ Json.type_name parsed
                        ++ py "' object has no attribute 'get'"),
                   here)
          end
      end
  end.

(** [re.search(...)] followed by [.group(1)]; the group of [field_re]
    takes part in every match. *)
Definition field_search (key raw_content : pystr) : option pystr :=
  match Re.search (field_re key) raw_content with
  | Some (Some g) => Some g
  | _ => None
  end.

(** The value of [answer], respectively [sql_query], after the [if
    raw_content:] block: the empty string unless the text is not empty and
    the pattern matches. *)
Definition recovered (key raw_content : pystr) : pystr :=
  match raw_content with
  | [] => []
  | _ :: _ =>
      match field_search key raw_content with
      | Some g => unescape g
      | None => []
      end
  end.

(** [except json.JSONDecodeError as e] *)
Definition on_decode_error (e_str : pystr) (loc : locals) : ChatResult :=
  let latency_ms := elapsed in
  let raw_content := default [] (l_content loc) in
  let answer := recovered (py "answer") raw_content in
  let sql_query := recovered (py "sql_query") raw_content in
  match answer with
  | _ :: _ =>
      {| natural_language_answer := Json.String answer;
         sql_query := Json.String sql_query;
         token_usage := default ZERO_USAGE (l_token_usage loc);
         latency_ms := latency_ms;
         provider := self_provider self;
         model := self_model self;
         status := ok;
         error_message := None |}
  | [] =>
      {| natural_language_answer :=
           Json.String
             match raw_content with
             | _ :: _ => raw_content
             | [] => py "Failed to parse response"
             end;
         sql_query := Json.String [];
         token_usage := default ZERO_USAGE (l_token_usage loc);
         latency_ms := latency_ms;
         provider := self_provider self;
         model := self_model self;
         status := error;
         error_message := Some (py "JSON parse error: " ++ e_str) |}
  end.

(** [except Exception as e] *)
Definition on_exception (e_str : pystr) : ChatResult :=
  {| natural_language_answer := Json.String [];
     sql_query := Json.String [];
     token_usage := ZERO_USAGE;
     latency_ms := elapsed;
     provider := self_provider self;
     model := self_model self;
     status := error;
     error_message := Some e_str |}.

(** [chat]: [inl] is [return], [inr] an exception that leaves the
    method. *)
Definition chat (messages session_history : list Msg)
  : ChatResult + exn :=
  match chat_try messages session_history with
  | inl r => inl r
  | inr (JSONDecodeError msg, loc) => inl (on_decode_error msg loc)
  | inr (OtherException msg, _) => inl (on_exception msg)
  end.

End Chat.

(** The text [json.loads] receives for a reply [content]: the three
    assignments to [content] in [chat]. *)
Definition sanitized (content : pystr) : pystr :=
  Clean._clean_json_string (strip_fence (Str.strip content)).

(** [token_usage] as [chat] builds it from [response.usage]. *)
Definition usage_of (usage : option Usage) : TokenUsage :=
  {| prompt_tokens := usage_field usage u_prompt_tokens;
     completion_tokens := usage_field usage u_completion_tokens;
     total_tokens := usage_field usage u_total_tokens |}.


(** A reply body inside a markdown fence: an opening fence with a language
    tag on the first line, the body, a closing fence on the last line. *)
Definition wrap_fence (tag body : pystr) : pystr :=
  FENCE ++ tag ++ NL :: body ++ NL :: FENCE.

(** ** [server.py]: the session store and [RequestHandler._handle_chat]

    [sessions] is the module-level dict.  The handler is modelled from the
    validated [ChatRequest] on; reading and validating the request body
    touches no session. *)

(** [l[-20:]] *)
Definition last20 {A} (l : list A) : list A := drop (length l - 20)%nat l.

(** [sessions.get(session_id, [])], the history a reader of the store
    sees. *)
Definition history (sessions : gmap pystr (list Msg)) (session_id : pystr)
  : list Msg :=
  default [] (sessions !! session_id).

Section Server.
Variable SYSTEM_PROMPT : pystr.
Variable decode_error : pystr -> pystr.
(** [json.dumps] of the dict with the keys [answer] and [sql_query]. *)
Variable json_dumps : Json.value -> Json.value -> pystr.
(** The global [llm_client], its backend and clock during this request. *)
Variable llm_client : LLMClient.
Variable create : kwargs -> outcome.
Variable elapsed : Z.

Definition _handle_chat (sessions : gmap pystr (list Msg))
    (session_id message : pystr)
  : gmap pystr (list Msg) * (ChatResult + exn) :=
  let sessions :=
    match sessions !! session_id with
    | None => <[session_id := []]> sessions
    | Some _ => sessions
    end in
  let session_history := history sessions session_id in
  match chat SYSTEM_PROMPT decode_error llm_client create elapsed
          [Message user message] session_history with
  | inl result =>
      match status result with
      | ok =>
          let appended :=
            session_history
              ++ [Message user message;
                  Message assistant
                    (json_dumps (natural_language_answer result)
                                (sql_query result))] in
          (<[session_id := last20 appended]> sessions, inl result)
      | error => (sessions, inl result)
      end
  | inr e => (sessions, inr e)
  end.

End Server.

(** ** Notions the properties are stated with *)

(** The scanner from outside and from inside a string literal. *)
Abbreviation esc := (Clean.scan_from false false).
Abbreviation esi := (Clean.scan_from true false).
Abbreviation rm := Clean.remove_ctl.

(** The characters [re.sub] keeps, and [DEL]. *)
Definition ok_char (c : N) : bool := negb (Clean.is_ctl c) || (c =? DEL).

(** The characters of a number, and those of the literals. *)
Definition num_char (c : N) : bool :=
  Json.is_digit c || (c =? MINUS) || (c =? PLUS) || (c =? DOT)
  || (c =? 101) || (c =? 69).

Definition scalar (v : Json.value) : Prop :=
  match v with
  | Json.Null | Json.Bool _ | Json.Number _ _ _ | Json.Const _ => True
  | _ => False
  end.

(** [eats x rest n]: [rest] is what is left of [x] after at least [n]
    characters, none of which [re.sub] would remove, [DEL] apart. *)
Definition eats (x rest : pystr) (n : nat) : Prop :=
  exists p,
    x = p ++ rest /\ Forall (fun c => ok_char c = true) p /\ (n <= length p)%nat.

(** What a successful [scan] says about the text it has read: it has
    taken at least as many characters as the value needs fuel, and an
    object ends with its closing brace. *)
Definition reads (x : pystr) (v : Json.value) (rest : pystr) : Prop :=
  eats x rest (Json.need v)
  /\ (forall pairs, v = Json.Object pairs -> exists p', x = p' ++ RBRACE :: rest).

Definition scan_reads (scan : pystr -> option (Json.value * pystr)) : Prop :=
  forall x v rest, scan x = Some (v, rest) -> reads x v rest.

(** [scan'] does what [scan] does on the values that need at most [k]. *)
Definition scan_upto (k : nat)
    (scan scan' : pystr -> option (Json.value * pystr)) : Prop :=
  forall x v r,
    scan x = Some (v, r) -> (Json.need v <= k)%nat -> scan' x = Some (v, r).





(** The characters of a text below [DEL], newline and tab among them. *)
Definition below_del (s : pystr) : pystr := List.filter (fun c => c <? DEL) s.

(** [s'] is [s] up to characters from [DEL] on, and is not longer. *)
Definition del_alike (s s' : pystr) : Prop :=
  below_del s = below_del s' /\ (length s' <= length s)%nat.






(** The result of [chat] for a reply whose sanitized text decodes to the
    object [pairs]. *)
Definition ok_result (self : LLMClient) (elapsed : Z) (usage : option Usage)
    (pairs : list (pystr * Json.value)) : ChatResult :=
  {| natural_language_answer :=
       default (Json.String []) (Json.dict_get pairs (py "answer"));
     sql_query :=
       default (Json.String []) (Json.dict_get pairs (py "sql_query"));
     token_usage := usage_of usage;
     latency_ms := elapsed;
     provider := self_provider self;
     model := self_model self;
     status := ok;
     error_message := None |}.

(** ** Sample values for the closed examples *)

(** [pyq s] is [py s] with every apostrophe read as a double quote, to
    write JSON texts. *)
Definition pyq (s : string) : pystr :=
  map (fun c => if c =? 39 then QUOTE else c) (py s).

Module Sample.
Definition client : LLMClient :=
  {| self_provider := ollama; self_model := py "llama3.2" |}.
Definition prompt : pystr := py "You are an inventory analytics assistant.".
Definition decode_error (s : pystr) : pystr := py "Expecting value".
Definition json_dumps (a q : Json.value) : pystr :=
  match a with
  | Json.String s => pyq "{'answer': '" ++ s ++ pyq "'}"
  | _ => pyq "{}"
  end.
(** A backend that answers every request with [content] and no usage
    data, and one that fails with [msg]. *)
Definition replies (content : pystr) (kw : kwargs) : outcome :=
  Returns (Some content) None.
Definition fails (msg : pystr) (kw : kwargs) : outcome :=
  Raises (OtherException msg).
(** [chat] for one user question against such a backend. *)
Definition question : list Msg :=
  [Message user (py "How many assets do I have?")].
Definition ask (create : kwargs -> outcome) : ChatResult + exn :=
  chat prompt decode_error client create 12 question [].
Definition answer_of (r : ChatResult + exn) : option Json.value :=
  match r with
  | inl r => Some (natural_language_answer r)
  | inr _ => None
  end.
Definition status_of (r : ChatResult + exn) : option status_t :=
  match r with
  | inl r => Some (status r)
  | inr _ => None
  end.
(** The reply of the example in the specification, without its fence. *)
Definition assets_reply : pystr :=
  pyq "{'answer': 'You have 42 assets.', 'sql_query': 'SELECT COUNT("
    ++ [42] ++ py ") FROM Assets WHERE Status <> " ++ [39] ++ py "Disposed"
    ++ [39] ++ pyq "'}".
Definition store : gmap pystr (list Msg) :=
  {[ py "session-1" :=
       [Message user (py "hello"); Message assistant (pyq "{'answer': 'hi'}")] ]}.
End Sample.

(** * The environment: [env_loader.py] and the start of [LLMClient]

    [os.environ] is a map from names to values, as on POSIX (names are
    case-sensitive).  The file system is outside the program: [load_env]
    takes the text of the file at [env_path], [None] when there is no
    such file. *)

Module Chr2.
Definition NUL : N := 0.
Definition HASH : N := 35.
Definition APOSTROPHE : N := 39.
Definition EQUALS : N := 61.
End Chr2.
Import Chr2.

(** ** More [str] methods *)

Module StrOps.

(** [s.endswith(p)] *)
Definition endswith (p s : pystr) : bool := Str.startswith (rev p) (rev s).

(** [c in s] for a one-character [c] *)
Definition contains (c : N) (s : pystr) : bool := existsb (N.eqb c) s.

(** [s.partition(sep)] for a one-character [sep]: the text before the
    first [sep], [sep], the text after it; [s] and two empty strings when
    [sep] does not occur. *)
Fixpoint partition (sep : N) (s : pystr) : pystr * pystr * pystr :=
  match s with
  | [] => ([], [], [])
  | c :: r =>
      if c =? sep then ([], [sep], r)
      else let '(before, m, after) := partition sep r in (c :: before, m, after)
  end.

(** [bool(s)] *)
Definition truthy (s : pystr) : bool :=
  match s with
  | [] => false
  | _ :: _ => true
  end.

End StrOps.

(** [for line in f] on a file opened in text mode with the default
    [newline=None]: a line ends after a newline, a carriage return or the
    two in a row, each read as one newline; the last line may have
    none. *)
Fixpoint file_lines (text : pystr) : list pystr :=
  match text with
  | [] => []
  | c :: r =>
      if c =? NL then [NL] :: file_lines r
      else if c =? CR then
        match r with
        | c2 :: r2 =>
            if c2 =? NL then [NL] :: file_lines r2 else [NL] :: file_lines r
        | [] => [[NL]]
        end
      else
        match file_lines r with
        | l :: ls => (c :: l) :: ls
        | [] => [[c]]
        end
  end.

(** ** [load_env] *)

(** The body of the loop down to the quotes: the key and the value of a
    line, [None] where the loop says [continue]. *)
Definition parse_line (line : pystr) : option (pystr * pystr) :=
  let line := Str.strip line in
  if negb (StrOps.truthy line) || Str.startswith [HASH] line then None
  else if negb (StrOps.contains EQUALS line) then None
  else
    let '(key, _, value) := StrOps.partition EQUALS line in
    let key := Str.strip key in
    let value := Str.strip value in
    let value :=
      if (Str.startswith [QUOTE] value && StrOps.endswith [QUOTE] value)
         || (Str.startswith [APOSTROPHE] value
             && StrOps.endswith [APOSTROPHE] value)
      then Str.slice_1_m1 value
      else value in
    Some (key, value).

(** What [os.environ] raises: [UnicodeEncodeError] from [os.fsencode] on
    a name or a value, [ValueError] from [putenv] on an embedded null. *)
Inductive env_exn := UnicodeEncodeError | ValueError.

Section Environ.
(** The characters the file system encoding can encode. *)
Variable fsencodable : N -> bool.

Definition fsencodes (s : pystr) : bool := forallb fsencodable s.

(** The last statement of the loop body, [if key and value and key not in
    os.environ: ...], for the rest of the lines; [environ] is
    [os.environ], [loaded] the dict the function returns.  An exception
    ends the loop and leaves [os.environ] as it is by then. *)
Fixpoint load_lines (lines : list pystr)
    (environ loaded : gmap pystr pystr)
  : gmap pystr pystr * (gmap pystr pystr + env_exn) :=
  match lines with
  | [] => (environ, inl loaded)
  | line :: rest =>
      match parse_line line with
      | None => load_lines rest environ loaded
      | Some (key, value) =>
          if StrOps.truthy key && StrOps.truthy value then
            if negb (fsencodes key) then (environ, inr UnicodeEncodeError)
            else
              match environ !! key with
              | Some _ => load_lines rest environ loaded
              | None =>
                  if negb (fsencodes value) then
                    (environ, inr UnicodeEncodeError)
                  else if StrOps.contains NUL key || StrOps.contains NUL value
                  then (environ, inr ValueError)
                  else load_lines rest (<[key := value]> environ)
                                       (<[key := value]> loaded)
              end
          else load_lines rest environ loaded
      end
  end.

(** [load_env(env_path)]: [os.environ] afterwards, and the dict returned
    or the exception raised. *)
Definition load_env (file : option pystr) (environ : gmap pystr pystr)
  : gmap pystr pystr * (gmap pystr pystr + env_exn) :=
  match file with
  | None => (environ, inl ∅)
  | Some text => load_lines (file_lines text) environ ∅
  end.

End Environ.

(** [get_env(key, default)] *)
Definition get_env (environ : gmap pystr pystr) (key dflt : pystr) : pystr :=
  default dflt (environ !! key).

(** ** [LLMClient.__init__] *)

(** The constructor call that makes [self.client]. *)
Inductive client_call :=
| AzureOpenAI (api_key api_version azure_endpoint : pystr)
| OpenAI (api_key : pystr) (base_url : option pystr).

Section Init.
Variable environ : gmap pystr pystr.

Definition _detect_provider : provider_t :=
  let azure_key := get_env environ (py "AZURE_OPENAI_API_KEY") [] in
  let azure_endpoint := get_env environ (py "AZURE_OPENAI_ENDPOINT") [] in
  let openai_key := get_env environ (py "OPENAI_API_KEY") [] in
  if StrOps.truthy azure_key && StrOps.truthy azure_endpoint then azure
  else if StrOps.truthy openai_key then openai
  else ollama.

(** [_create_client]: [self.model] afterwards and the call returned. *)
Definition _create_client (self_provider : provider_t) (self_model : pystr)
  : pystr * client_call :=
  match self_provider with
  | azure =>
      (get_env environ (py "AZURE_OPENAI_DEPLOYMENT") self_model,
       AzureOpenAI (get_env environ (py "AZURE_OPENAI_API_KEY") [])
         (py "2024-02-15-preview")
         (get_env environ (py "AZURE_OPENAI_ENDPOINT") []))
  | openai =>
      (get_env environ (py "MODEL_NAME") (py "gpt-4o-mini"),
       OpenAI (get_env environ (py "OPENAI_API_KEY") []) None)
  | ollama =>
      let ollama_url :=
        get_env environ (py "OLLAMA_BASE_URL") (py "http://localhost:11434") in
      (self_model, OpenAI (py "ollama") (Some (ollama_url ++ py "/v1")))
  end.

(** [LLMClient()]: the attributes [provider] and [model], and the call
    that made [client]. *)
Definition __init__ : LLMClient * client_call :=
  let provider := _detect_provider in
  let model := get_env environ (py "MODEL_NAME") (py "llama3.2") in
  let '(model, client) := _create_client provider model in
  ({| self_provider := provider; self_model := model |}, client).

End Init.

(** * [json.dumps] with the default encoder

    [ensure_ascii] is on, the separators are a comma and a colon, each
    followed by a space.  A [float] is written by [float.__repr__], which
    is outside: [float_repr] is given the three lexemes the number was
    read from. *)

Module Encoder.

(** A hexadecimal digit, lower case. *)
Definition hexdigit (n : N) : N := if n <? 10 then 48 + n else 87 + n.

(** The format [\u{0:04x}] *)
Definition u_escape (n : N) : pystr :=
  [BACKSLASH; 117; hexdigit (n / 4096 mod 16); hexdigit (n / 256 mod 16);
   hexdigit (n / 16 mod 16); hexdigit (n mod 16)].

(** [replace] of [py_encode_basestring_ascii], on a character: those from
    the space to the tilde stay, the double quote and the backslash
    apart. *)
Definition escape_char (c : N) : pystr :=
  if c =? QUOTE then [BACKSLASH; QUOTE]
  else if c =? BACKSLASH then [BACKSLASH; BACKSLASH]
  else if c =? NL then [BACKSLASH; 110]
  else if c =? CR then [BACKSLASH; 114]
  else if c =? TAB then [BACKSLASH; 116]
  else if c =? 12 then [BACKSLASH; 102]
  else if c =? 8 then [BACKSLASH; 98]
  else if (32 <=? c) && (c <=? 126) then [c]
  else if c <? 65536 then u_escape c
  else
    let n := c - 65536 in
    let s1 := N.lor 55296 (N.land (N.shiftr n 10) 1023) in
    let s2 := N.lor 56320 (N.land n 1023) in
    u_escape s1 ++ u_escape s2.

Definition encode_basestring_ascii (s : pystr) : pystr :=
  QUOTE :: flat_map escape_char s ++ [QUOTE].

(** [dict(pairs)] as a list in insertion order: a key keeps the place of
    its first pair and takes the value of its last. *)
Fixpoint dict_set {A} (k : pystr) (v : A) (d : list (pystr * A))
  : list (pystr * A) :=
  match d with
  | [] => [(k, v)]
  | (k', v') :: r =>
      if decide (k' = k) then (k', v) :: r else (k', v') :: dict_set k v r
  end.

Definition dict_of {A} (pairs : list (pystr * A)) : list (pystr * A) :=
  fold_left (fun d kv => dict_set kv.1 kv.2 d) pairs [].

(** [", ".join(items)] *)
Fixpoint join_comma (items : list pystr) : pystr :=
  match items with
  | [] => []
  | [x] => x
  | x :: rest => x ++ COMMA :: SPACE :: join_comma rest
  end.

(** [str(int(lexeme))]: the lexeme itself, minus zero apart. *)
Definition int_repr (lexeme : pystr) : pystr :=
  if decide (lexeme = [MINUS; ZERO]) then [ZERO] else lexeme.

Section Dumps.
Variable float_repr : pystr -> pystr -> pystr -> pystr.

(** The text of a value that [json.loads] has made. *)
Fixpoint dumps (v : Json.value) : pystr :=
  match v with
  | Json.Null => py "null"
  | Json.Bool true => py "true"
  | Json.Bool false => py "false"
  | Json.Number i [] [] => int_repr i
  | Json.Number i f e => float_repr i f e
  | Json.Const Json.NaN => py "NaN"
  | Json.Const Json.Infinity => py "Infinity"
  | Json.Const Json.NegInfinity => py "-Infinity"
  | Json.String s => encode_basestring_ascii s
  | Json.Array items =>
      LBRACKET :: join_comma (map dumps items) ++ [RBRACKET]
  | Json.Object pairs =>
      LBRACE ::
        join_comma
          (map (fun kt => encode_basestring_ascii kt.1 ++ COLON :: SPACE :: kt.2)
             (dict_of (map (fun kv => (kv.1, dumps kv.2)) pairs)))
        ++ [RBRACE]
  end.

(** [json.dumps] of the dict with the keys [answer] and [sql_query], the
    content of an assistant turn. *)
Definition dumps_turn (a q : Json.value) : pystr :=
  dumps (Json.Object [(py "answer", a); (py "sql_query", q)]).

End Dumps.
End Encoder.

(** * Requests: [models.py] and [RequestHandler.do_POST]

    The validation [pydantic] does when a [ChatRequest] is built from
    [data] and a [ChatResponse] from [result] is outside the program; the
    handler takes the two constructors as arguments.  So is the decoding of the
    request line and of the body: the handler takes the path
    [urlparse(self.path).path] and the text of the body. *)

Module Models.

Record ChatRequest := {
  session_id : pystr;
  message : pystr;
  context : option (list (pystr * Json.value))
}.

Record ChatResponse := {
  natural_language_answer : pystr;
  sql_query : pystr;
  token_usage : TokenUsage;
  latency_ms : Z;
  provider : provider_t;
  model : pystr;
  status : status_t;
  error_message : option pystr
}.

End Models.

(** What [_send_response] is given: the status code and the dict, which is
    an error, or the dump of a [ChatResponse]. *)
Inductive payload :=
| ErrorDict (error : pystr)
| ResponseDict (response : Models.ChatResponse).

Record http_response := { code : Z; data : payload }.

Section Handler.
Variable SYSTEM_PROMPT : pystr.
Variable decode_error : pystr -> pystr.
Variable float_repr : pystr -> pystr -> pystr -> pystr.
(** The constructor [ChatRequest] on the value [json.loads] made of the
    body, and [ChatResponse] on the dict [chat] returned: the model, or
    [str(e)] of the exception. *)
Variable ChatRequest_init : Json.value -> pystr + Models.ChatRequest.
Variable ChatResponse_init : ChatResult -> pystr + Models.ChatResponse.
Variable llm_client : LLMClient.
Variable create : kwargs -> outcome.
Variable elapsed : Z.

(** [_handle_chat] from the body of the request to the response. *)
Definition handle_chat_request (sessions : gmap pystr (list Msg))
    (body : pystr) : gmap pystr (list Msg) * http_response :=
  match Json.loads body with
  | None => (sessions, {| code := 400; data := ErrorDict (py "Invalid JSON") |})
  | Some data =>
      match ChatRequest_init data with
      | inl e_str => (sessions, {| code := 500; data := ErrorDict e_str |})
      | inr request =>
          match
            _handle_chat SYSTEM_PROMPT decode_error
              (Encoder.dumps_turn float_repr) llm_client create elapsed
              sessions (Models.session_id request) (Models.message request)
          with
          | (sessions, inl result) =>
              match ChatResponse_init result with
              | inr response =>
                  (sessions, {| code := 200; data := ResponseDict response |})
              | inl e_str =>
                  (sessions, {| code := 500; data := ErrorDict e_str |})
              end
          | (sessions, inr (JSONDecodeError _)) =>
              (sessions,
               {| code := 400; data := ErrorDict (py "Invalid JSON") |})
          | (sessions, inr (OtherException e_str)) =>
              (sessions, {| code := 500; data := ErrorDict e_str |})
          end
      end
  end.

(** [do_POST] *)
Definition do_POST (sessions : gmap pystr (list Msg)) (path body : pystr)
  : gmap pystr (list Msg) * http_response :=
  if decide (path = py "/api/chat") then handle_chat_request sessions body
  else (sessions, {| code := 404; data := ErrorDict (py "Not found") |}).

End Handler.

(** ** Notions the properties of the environment are stated with *)

(** The value a file gives a name: the one of the first line that has this
    name and a value that is not empty. *)
Fixpoint first_value (lines : list pystr) (key : pystr) : option pystr :=
  match lines with
  | [] => None
  | line :: rest =>
      match parse_line line with
      | Some (k, v) =>
          if bool_decide (k = key) && StrOps.truthy k && StrOps.truthy v
          then Some v
          else first_value rest key
      | None => first_value rest key
      end
  end.

(** A name of the environment that has a value, and the value is not
    empty. *)
Definition is_set (environ : gmap pystr pystr) (key : pystr) : Prop :=
  exists v, environ !! key = Some v /\ v <> [].

(** A text without whitespace at either end. *)
Definition stripped (s : pystr) : Prop := Str.strip s = s.

(** ** Sample values of the environment for the closed examples *)

Module EnvSample.
(** The characters [os.fsencode] takes where the file system encoding is
    UTF-8: all but the surrogates, those that [surrogateescape] maps to a
    byte apart. *)
Definition fsencodable (c : N) : bool :=
  negb ((55296 <=? c) && (c <=? 57343)) || ((56448 <=? c) && (c <=? 56575)).
(** An environment file of six lines. *)
Definition dotenv : pystr :=
  py "# keys" ++ [NL]
  ++ pyq "OPENAI_API_KEY = 'sk-test'" ++ [CR; NL]
  ++ py "MODEL_NAME=gpt-4o" ++ [NL]
  ++ [NL]
  ++ py "MODEL_NAME=other" ++ [NL]
  ++ py "PORT=" ++ [NL].
(** The environment before the file is loaded, what the call returns
    and the environment afterwards. *)
Definition environ : gmap pystr pystr :=
  {[ py "HOME" := py "/root"; py "OPENAI_API_KEY" := [] ]}.
Definition loaded : gmap pystr pystr :=
  {[ py "MODEL_NAME" := py "gpt-4o" ]}.
Definition environ' : gmap pystr pystr :=
  {[ py "HOME" := py "/root"; py "OPENAI_API_KEY" := [];
     py "MODEL_NAME" := py "gpt-4o" ]}.
End EnvSample.

(** ** Notions the properties of the session store are stated with *)

(** A history made of exchanges: a user turn, then an assistant turn, and
    so on. *)
Fixpoint exchanges (turns : list Msg) : bool :=
  match turns with
  | [] => true
  | u :: a :: rest =>
      match role u, role a with
      | user, assistant => exchanges rest
      | _, _ => false
      end
  | [_] => false
  end.

(** The request [chat] sends for a user message in a session. *)
Definition session_request (SYSTEM_PROMPT : pystr) (llm_client : LLMClient)
    (session_history : list Msg) (message : pystr) : kwargs :=
  {| kw_model := self_model llm_client;
     kw_messages :=
       Message system SYSTEM_PROMPT
         :: session_history ++ [Message user message];
     kw_temperature := 0;
     kw_response_format :=
       match self_provider llm_client with
       | openai | azure => Some (py "json_object")
       | ollama => None
       end |}.

(** A [str] whose code points are at most U+10FFFF and in which no high
    surrogate stands before a low one. *)
Fixpoint unpaired (s : pystr) : bool :=
  match s with
  | [] => true
  | c :: r =>
      (c <=? 1114111)
      && negb (Json.is_high c
               && match r with
                  | c' :: _ => Json.is_low c'
                  | [] => false
                  end)
      && unpaired r
  end.

(** By what [encode_basestring_ascii] writes a character: a named escape,
    the character itself, one [\u] escape, or two for a character above
    U+FFFF. *)
Inductive escaped : N -> pystr -> Prop :=
| escaped_named c e :
    e <> 117 -> Json.backslash e = Some c -> escaped c [BACKSLASH; e]
| escaped_plain c :
    c <> QUOTE -> c <> BACKSLASH -> (c <? 32) = false -> escaped c [c]
| escaped_u c :
    c < 65536 -> escaped c (Encoder.u_escape c)
| escaped_pair c s1 s2 :
    Json.is_high s1 = true -> Json.is_low s2 = true ->
    s1 < 65536 -> s2 < 65536 ->
    Json.join_surrogates s1 s2 = c ->
    escaped c (Encoder.u_escape s1 ++ Encoder.u_escape s2).

(** The characters from the space to the tilde. *)
Definition printable (c : N) : bool := (32 <=? c) && (c <=? 126).

(** ** Sample values for the closed examples on requests *)

Module HttpSample.
(** Constructors that take a request with a string under [session_id] and
    under [message], and a result whose answer and query are strings, and
    refuse the rest. *)
Definition ChatRequest_init (data : Json.value) : pystr + Models.ChatRequest :=
  match data with
  | Json.Object pairs =>
      match Json.dict_get pairs (py "session_id"),
            Json.dict_get pairs (py "message") with
      | Some (Json.String s), Some (Json.String m) =>
          inr {| Models.session_id := s;
                 Models.message := m;
                 Models.context := None |}
      | _, _ => inl (py "validation error for ChatRequest")
      end
  | _ => inl (py "argument after ** must be a mapping")
  end.
Definition ChatResponse_init (result : ChatResult)
  : pystr + Models.ChatResponse :=
  match natural_language_answer result, sql_query result with
  | Json.String a, Json.String q =>
      inr {| Models.natural_language_answer := a;
             Models.sql_query := q;
             Models.token_usage := token_usage result;
             Models.latency_ms := latency_ms result;
             Models.provider := provider result;
             Models.model := model result;
             Models.status := status result;
             Models.error_message := error_message result |}
  | _, _ => inl (py "validation error for ChatResponse")
  end.
Definition float_repr (i f e : pystr) : pystr := i ++ f ++ e.
(** A request of the session of [Sample.store]. *)
Definition body : pystr :=
  pyq "{'session_id': 'session-1', 'message': 'count'}".
Definition do_POST (create : kwargs -> outcome) :=
  do_POST Sample.prompt Sample.decode_error float_repr
    ChatRequest_init ChatResponse_init Sample.client create 12.
Definition handle (create : kwargs -> outcome) :=
  _handle_chat Sample.prompt Sample.decode_error
    (Encoder.dumps_turn float_repr) Sample.client create 12.
(** A backend that answers a request of four messages with [content] and
    fails on every other. *)
Definition moody (content : pystr) (kw : kwargs) : outcome :=
  if (length (kw_messages kw) =? 4)%nat then Returns (Some content) None
  else Raises (OtherException (py "busy")).
End HttpSample.


(** [p in s]: the text [p] occurs in [s]. *)
Fixpoint occurs (p s : pystr) : bool :=
  Str.startswith p s
  || match s with
     | [] => false
     | _ :: r => occurs p r
     end.

(** * Properties *)

(** ** The session store *)

Section ServerFacts.
Variable SYSTEM_PROMPT : pystr.
Variable decode_error : pystr -> pystr.
Variable json_dumps : Json.value -> Json.value -> pystr.
Variable llm_client : LLMClient.
Variable create : kwargs -> outcome.
Variable elapsed : Z.

Let handle :=
  _handle_chat SYSTEM_PROMPT decode_error json_dumps llm_client create elapsed.

Lemma history_insert sessions sid sid' (l : list Msg) :
  history (<[sid := l]> sessions) sid'
  = if decide (sid = sid') then l else history sessions sid'.
Proof.
  unfold history. rewrite lookup_insert. by case_decide.
Qed.

(** Creating the empty session of an unseen id shows no reader a
    different history. *)
Lemma history_get_or_create sessions sid sid' :
  history
    match sessions !! sid with
    | None => <[sid := []]> sessions
    | Some _ => sessions
    end sid'
  = history sessions sid'.
Proof.
  destruct (sessions !! sid) eqn:E; [done|].
  rewrite history_insert. case_decide; [subst|done].
  unfold history. by rewrite E.
Qed.

Lemma last20_length {A} (l : list A) : (length (last20 l) <= 20)%nat.
Proof. unfold last20. rewrite length_drop. lia. Qed.

Lemma last20_suffix {A} (l : list A) :
  l = take (length l - 20) l ++ last20 l.
Proof. unfold last20. by rewrite take_drop. Qed.

(** C1: when the result of a [_handle_chat] call has status [error],
    every session shows the history it showed before the call (no turn
    appended, none removed), and a store that already held the session
    id is the very same store afterwards. *)
Theorem handle_chat_error_keeps_sessions sessions sid msg r :
  (handle sessions sid msg).2 = inl r ->
  status r = error ->
  (forall sid', history (handle sessions sid msg).1 sid' = history sessions sid')
  /\ (is_Some (sessions !! sid) -> (handle sessions sid msg).1 = sessions).
Proof.
  unfold handle, _handle_chat. intros Hres Hst.
  destruct (chat _ _ _ _ _ _ _) as [r'|e]; [|done].
  destruct (status r') eqn:Hst'; simpl in Hres;
    injection Hres as ->; [congruence|].
  simpl. split.
  - intros sid'. apply history_get_or_create.
  - intros [l ->]. done.
Qed.

(** C2: after a successful exchange the stored history is [appended[-20:]]
    where [appended] is the old history followed by the user turn and
    the assistant turn: at most 20 turns, a suffix of [appended] in the
    same order, the evicted turns being the oldest ones. *)
Theorem handle_chat_window sessions sid msg r :
  (handle sessions sid msg).2 = inl r ->
  status r = ok ->
  let appended :=
    history sessions sid
      ++ [Message user msg;
          Message assistant
            (json_dumps (natural_language_answer r) (sql_query r))] in
  let stored := history (handle sessions sid msg).1 sid in
  (length stored <= 20)%nat
  /\ stored = drop (length appended - 20) appended
  /\ length stored = Nat.min 20 (length appended)
  /\ appended = take (length appended - 20) appended ++ stored.
Proof.
  unfold handle, _handle_chat. intros Hres Hst.
  destruct (chat _ _ _ _ _ _ _) as [r'|e]; [|done].
  destruct (status r') eqn:Hst'; simpl in Hres;
    injection Hres as ->; [|congruence].
  cbn [fst].
  rewrite history_insert, decide_True by done.
  rewrite history_get_or_create.
  set (appended := history sessions sid ++ _).
  split; [apply last20_length|].
  split; [done|].
  split; [unfold last20; rewrite length_drop; lia|].
  apply last20_suffix.
Qed.

End ServerFacts.

(** ** [chat] returns on every path *)

Section ChatFacts.
Variable SYSTEM_PROMPT : pystr.
Variable decode_error : pystr -> pystr.
Variable self : LLMClient.
Variable create : kwargs -> outcome.
Variable elapsed : Z.

Let run := chat SYSTEM_PROMPT decode_error self create elapsed.
Let kw := request_kwargs SYSTEM_PROMPT self.

Lemma on_decode_error_status e_str loc :
  let r := on_decode_error self elapsed e_str loc in
  status r = ok <-> error_message r = None.
Proof.
  unfold on_decode_error. cbn zeta.
  destruct (recovered (py "answer") _); simpl; split; congruence.
Qed.

(** C10: in every result of [chat] the status is [ok] exactly when the
    dict has no [error_message] (the field [ChatResponse] then sets to
    [None]). *)
Theorem chat_ok_iff_no_error_message messages session_history r :
  run messages session_history = inl r ->
  status r = ok <-> error_message r = None.
Proof.
  unfold run, chat, chat_try.
  destruct (create _) as [[m|m]|[c|] u]; simpl.
  - intros [= <-]. apply on_decode_error_status.
  - intros [= <-]. simpl. split; congruence.
  - destruct (Json.loads _) as [[]|]; simpl; intros [= <-]; simpl;
      try (split; congruence).
    apply on_decode_error_status.
  - intros [= <-]. simpl. split; congruence.
Qed.


End ChatFacts.

(** ** Fences *)

Section FenceFacts.

Lemma split_nl_not_nil s : Str.split_nl s <> [].
Proof.
  destruct s as [|c r]; simpl; [done|].
  destruct (c =? NL); [done|]. by destruct (Str.split_nl r).
Qed.

Lemma join_split_nl s : Str.join_nl (Str.split_nl s) = s.
Proof.
  induction s as [|c r IH]; [done|]. simpl.
  destruct (N.eqb_spec c NL) as [->|Hc].
  - pose proof (split_nl_not_nil r) as Hne.
    simpl. destruct (Str.split_nl r) as [|l ls]; [done|].
    by rewrite IH.
  - pose proof (split_nl_not_nil r) as Hne.
    destruct (Str.split_nl r) as [|l ls]; [done|].
    destruct ls; simpl in *; by rewrite <- IH.
Qed.

Lemma split_nl_no_nl s : NL ∉ s -> Str.split_nl s = [s].
Proof.
  induction s as [|c r IH]; [done|]. intros Hnl. simpl.
  destruct (N.eqb_spec c NL) as [->|Hc]; [set_solver|].
  rewrite IH; [done|set_solver].
Qed.

Lemma split_nl_app s t :
  Str.split_nl (s ++ NL :: t) = Str.split_nl s ++ Str.split_nl t.
Proof.
  induction s as [|c r IH]; simpl.
  - done.
  - destruct (c =? NL); [by rewrite IH|].
    rewrite IH. pose proof (split_nl_not_nil r).
    by destruct (Str.split_nl r).
Qed.

Lemma lstrip_id c s : Str.isspace c = false -> Str.lstrip (c :: s) = c :: s.
Proof. intros H. simpl. by rewrite H. Qed.

Lemma strip_id s c d m :
  s = c :: m ++ [d] -> Str.isspace c = false -> Str.isspace d = false ->
  Str.strip s = s.
Proof.
  intros -> Hc Hd. unfold Str.strip, Str.rstrip.
  rewrite lstrip_id by done.
  assert (Hrev : rev (c :: m ++ [d]) = d :: rev m ++ [c]).
  { simpl. by rewrite rev_app_distr. }
  rewrite Hrev, lstrip_id by done.
  rewrite <- Hrev. apply rev_involutive.
Qed.

Lemma strip_wrap_fence tag body :
  Str.strip (wrap_fence tag body) = wrap_fence tag body.
Proof.
  unfold wrap_fence, FENCE.
  eapply (strip_id _ BACKTICK BACKTICK
            ([BACKTICK; BACKTICK] ++ tag ++ NL :: body ++ [NL; BACKTICK; BACKTICK]));
    [|done|done].
  simpl. do 3 f_equal. rewrite <- !app_assoc. simpl.
  do 2 f_equal. by rewrite <- app_assoc.
Qed.

(** Fence removal undoes [wrap_fence] when the tag stays on the first
    line. *)
Lemma strip_fence_wrap tag body :
  NL ∉ tag -> strip_fence (wrap_fence tag body) = body.
Proof.
  intros Htag. unfold strip_fence.
  replace (Str.startswith FENCE (wrap_fence tag body)) with true by done.
  assert (Hlines : Str.split_nl (wrap_fence tag body)
                   = (FENCE ++ tag) :: Str.split_nl body ++ [FENCE]).
  { unfold wrap_fence.
    rewrite app_assoc, split_nl_app, split_nl_app.
    rewrite (split_nl_no_nl (FENCE ++ tag)).
    - done.
    - apply not_elem_of_app. split; [|done].
      unfold FENCE. rewrite !not_elem_of_cons. by repeat split; try apply not_elem_of_nil. }
  rewrite Hlines.
  replace (List.last (_ :: _ ++ [FENCE]) []) with FENCE.
  2:{ change ((FENCE ++ tag) :: Str.split_nl body ++ [FENCE])
        with (((FENCE ++ tag) :: Str.split_nl body) ++ [FENCE]).
      by rewrite last_last. }
  replace (Str.startswith FENCE (Str.strip FENCE)) with true by done.
  unfold Str.slice_1_m1. simpl tail.
  rewrite removelast_last. apply join_split_nl.
Qed.

Lemma sanitized_wrap_fence tag body :
  NL ∉ tag ->
  Str.strip body = body ->
  Str.startswith FENCE body = false ->
  sanitized (wrap_fence tag body) = sanitized body.
Proof.
  intros Htag Hstrip Hfence. unfold sanitized.
  rewrite strip_wrap_fence, strip_fence_wrap by done.
  rewrite Hstrip. unfold strip_fence. by rewrite Hfence.
Qed.

End FenceFacts.

Section FencedReply.
Variable SYSTEM_PROMPT : pystr.
Variable decode_error : pystr -> pystr.
Variable self : LLMClient.
Variable elapsed : Z.

Let run := chat SYSTEM_PROMPT decode_error self.
Let kw := request_kwargs SYSTEM_PROMPT self.

(** The result of [chat] depends on the reply only through the text
    handed to [json.loads] and the usage data. *)
Lemma chat_sanitized create create' messages session_history c c' usage :
  create (kw messages session_history) = Returns (Some c) usage ->
  create' (kw messages session_history) = Returns (Some c') usage ->
  sanitized c = sanitized c' ->
  run create elapsed messages session_history
  = run create' elapsed messages session_history.
Proof.
  unfold run, chat, chat_try, kw. intros -> -> Heq.
  cbn zeta. fold (sanitized c). fold (sanitized c'). by rewrite Heq.
Qed.

(** C8, amended: a body without leading or trailing whitespace that does
    not itself start with a fence gives the same result wrapped in a
    fence (language tag on the first line, closing fence on the last) as
    on its own. *)
Theorem chat_fenced_same create create' messages session_history
    tag body usage :
  NL ∉ tag ->
  Str.strip body = body ->
  Str.startswith FENCE body = false ->
  create (kw messages session_history)
    = Returns (Some (wrap_fence tag body)) usage ->
  create' (kw messages session_history) = Returns (Some body) usage ->
  run create elapsed messages session_history
  = run create' elapsed messages session_history.
Proof.
  intros Htag Hstrip Hfence Hc Hc'.
  eapply chat_sanitized; [done..|].
  by apply sanitized_wrap_fence.
Qed.

End FencedReply.

Lemma chat_fenced_same_witness :
  let tag := py "json" in
  let body := Sample.assets_reply in
  (NL ∉ tag) /\ Str.strip body = body /\ Str.startswith FENCE body = false
  /\ Sample.ask (Sample.replies (wrap_fence tag body))
     = Sample.ask (Sample.replies body).
Proof.
  assert (H1 : NL ∉ py "json").
  { unfold py. simpl. rewrite !not_elem_of_cons.
    by repeat split; try apply not_elem_of_nil. }
  assert (H2 : Str.strip Sample.assets_reply = Sample.assets_reply)
    by (vm_compute; reflexivity).
  assert (H3 : Str.startswith FENCE Sample.assets_reply = false)
    by (vm_compute; reflexivity).
  split; [exact H1|]. split; [exact H2|]. split; [exact H3|].
  exact (chat_fenced_same Sample.prompt Sample.decode_error Sample.client 12
           (Sample.replies (wrap_fence (py "json") Sample.assets_reply))
           (Sample.replies Sample.assets_reply)
           Sample.question [] (py "json") Sample.assets_reply None H1 H2 H3 eq_refl eq_refl).
Defined.

(** C8 as stated fails: a body with a leading space is stripped on its own
    but kept as it is inside a fence, and a body that is itself fenced
    loses its fence on its own but not inside another one. *)
Lemma chat_fenced_differs :
  let body := py " x" in
  let fenced := wrap_fence [] (py "{}") in
  Sample.answer_of (Sample.ask (Sample.replies (wrap_fence (py "json") body)))
    = Some (Json.String (py " x"))
  /\ Sample.answer_of (Sample.ask (Sample.replies body))
     = Some (Json.String (py "x"))
  /\ Sample.ask (Sample.replies (wrap_fence (py "json") body))
     <> Sample.ask (Sample.replies body)
  /\ Sample.status_of (Sample.ask (Sample.replies (wrap_fence (py "json") fenced)))
     = Some error
  /\ Sample.status_of (Sample.ask (Sample.replies fenced)) = Some ok.
Proof.
  repeat split; try (vm_compute; reflexivity).
  vm_compute. intros H. discriminate H.
Qed.

(** ** The fallback pattern *)

Section RegexFacts.


Lemma rmatch_cat r1 r2 s g k :
  Re.rmatch (Re.Cat r1 r2) s g k
  = Re.rmatch r1 s g (fun s1 g1 => Re.rmatch r2 s1 g1 k).
Proof. reflexivity. Qed.



Lemma rmatch_group r s g k :
  Re.rmatch (Re.Group r) s g k
  = Re.rmatch r s g
      (fun s1 _ => k s1 (Some (take (length s - length s1)%nat s))).
Proof. reflexivity. Qed.


Lemma rmatch_lit l s g k :
  Re.rmatch (Re.lit l) s g k
  = if Str.startswith l s then k (drop (length l) s) g else None.
Proof.
  revert s. induction l as [|c l IH]; intros s; [done|].
  destruct s as [|c' s]; [done|]. simpl.
  rewrite (N.eqb_sym c c'). destruct (c' =? c); [apply IH|done].
Qed.






(** No match starts where the quoted key does not. *)
Lemma match_field_none key s :
  Str.startswith (QUOTE :: key ++ [QUOTE]) s = false ->
  Re.match_here (field_re key) s = None.
Proof.
  intros H. unfold Re.match_here, field_re.
  by rewrite rmatch_cat, rmatch_lit, H.
Qed.



(** The result of a match is what its continuation returns. *)
Lemma star_loop_cont body k n :
  (forall s g k' m, body s g k' = Some m -> exists s' g', k' s' g' = Some m) ->
  forall s g m,
    Re.star_loop body k n s g = Some m -> exists s' g', k s' g' = Some m.
Proof.
  intros Hbody. induction n as [|n IH]; intros s g m; simpl; [eauto|].
  destruct (body s g _) as [m'|] eqn:E; [|eauto].
  intros [= ->]. destruct (Hbody _ _ _ _ E) as (s1 & g1 & H1).
  destruct (length s1 <? length s)%nat; [|done]. by eapply IH.
Qed.

Lemma rmatch_cont r : forall s g k m,
  Re.rmatch r s g k = Some m -> exists s' g', k s' g' = Some m.
Proof.
  induction r as [|c| |p|r1 IH1 r2 IH2|r1 IH1|r1 IH1]; intros s g k m; simpl.
  - eauto.
  - destruct s as [|c' s']; [done|]. destruct (c' =? c); [eauto|done].
  - destruct s as [|c' s']; [done|]. eauto.
  - destruct s as [|c' s']; [done|]. destruct (p c'); [eauto|done].
  - intros (s1 & g1 & H)%IH1. by eapply IH2.
  - apply star_loop_cont. intros s0 g0 k' m0. apply IH1.
  - intros (s1 & g1 & H)%IH1. eauto.
Qed.

(** The group of the pattern takes part in every match, so [group(1)] is
    a string whenever [re.search] finds something. *)
Lemma match_field_group key s m :
  Re.match_here (field_re key) s = Some m -> exists g, m = Some g.
Proof.
  unfold Re.match_here, field_re.
  rewrite rmatch_cat. intros (s1 & g1 & H)%rmatch_cont.
  rewrite rmatch_cat in H. apply rmatch_cont in H as (s2 & g2 & H).
  rewrite rmatch_cat in H. apply rmatch_cont in H as (s3 & g3 & H).
  rewrite rmatch_cat in H. apply rmatch_cont in H as (s4 & g4 & H).
  rewrite rmatch_cat in H. apply rmatch_cont in H as (s5 & g5 & H).
  rewrite rmatch_cat, rmatch_group in H.
  apply rmatch_cont in H as (s6 & g6 & H). simpl in H.
  destruct s6 as [|c s7]; [done|]. destruct (c =? QUOTE); [|done].
  injection H as <-. eauto.
Qed.

Lemma search_field_group key s m :
  Re.search (field_re key) s = Some m -> exists g, m = Some g.
Proof.
  induction s as [|c s IH]; simpl.
  - done.
  - destruct (Re.match_here (field_re key) (c :: s)) as [m'|] eqn:E; [|done].
    intros [= ->]. by eapply match_field_group.
Qed.

End RegexFacts.

(** ** The decode-error handler *)

Section FallbackFacts.
Variable SYSTEM_PROMPT : pystr.
Variable decode_error : pystr -> pystr.
Variable self : LLMClient.
Variable create : kwargs -> outcome.
Variable elapsed : Z.

Let run := chat SYSTEM_PROMPT decode_error self create elapsed.
Let kw := request_kwargs SYSTEM_PROMPT self.




End FallbackFacts.

(** ** Closed instances of the session-store theorems *)

Lemma handle_chat_error_keeps_sessions_witness :
  let handle :=
    _handle_chat Sample.prompt Sample.decode_error Sample.json_dumps
      Sample.client (Sample.fails (py "connection refused")) 12 in
  let r := on_exception Sample.client 12 (py "connection refused") in
  (handle Sample.store (py "session-1") (py "hi again")).2 = inl r
  /\ status r = error
  /\ (forall sid',
        history (handle Sample.store (py "session-1") (py "hi again")).1 sid'
        = history Sample.store sid')
  /\ (is_Some (Sample.store !! py "session-1") ->
      (handle Sample.store (py "session-1") (py "hi again")).1 = Sample.store).
Proof.
  assert (H1 : (_handle_chat Sample.prompt Sample.decode_error Sample.json_dumps
                  Sample.client (Sample.fails (py "connection refused")) 12
                  Sample.store (py "session-1") (py "hi again")).2
               = inl (on_exception Sample.client 12 (py "connection refused")))
    by (vm_compute; reflexivity).
  split; [exact H1|]. split; [reflexivity|].
  exact (handle_chat_error_keeps_sessions _ _ _ _ _ _ _ _ _ _ H1 eq_refl).
Defined.

Lemma handle_chat_window_witness :
  let handle :=
    _handle_chat Sample.prompt Sample.decode_error Sample.json_dumps
      Sample.client (Sample.replies (pyq "{'answer': 'two'}")) 12 in
  let r :=
    {| natural_language_answer := Json.String (py "two");
       sql_query := Json.String [];
       token_usage := ZERO_USAGE;
       latency_ms := 12;
       provider := ollama;
       model := py "llama3.2";
       status := ok;
       error_message := None |} in
  (handle Sample.store (py "session-1") (py "count")).2 = inl r
  /\ status r = ok
  /\ history (handle Sample.store (py "session-1") (py "count")).1 (py "session-1")
     = [Message user (py "hello"); Message assistant (pyq "{'answer': 'hi'}");
        Message user (py "count"); Message assistant (pyq "{'answer': 'two'}")].
Proof.
  set (r := {| natural_language_answer := Json.String (py "two");
               sql_query := Json.String [];
               token_usage := ZERO_USAGE;
               latency_ms := 12;
               provider := ollama;
               model := py "llama3.2";
               status := ok;
               error_message := None |}).
  assert (H1 : (_handle_chat Sample.prompt Sample.decode_error Sample.json_dumps
                  Sample.client (Sample.replies (pyq "{'answer': 'two'}")) 12
                  Sample.store (py "session-1") (py "count")).2 = inl r)
    by (vm_compute; reflexivity).
  split; [exact H1|]. split; [reflexivity|].
  destruct (handle_chat_window _ _ _ _ _ _ _ _ _ _ H1 eq_refl) as (_ & -> & _).
  vm_compute. reflexivity.
Defined.

Lemma chat_ok_iff_no_error_message_witness :
  let r := on_exception Sample.client 12 (py "connection refused") in
  Sample.ask (Sample.fails (py "connection refused")) = inl r
  /\ (status r = ok <-> error_message r = None).
Proof.
  split; [reflexivity|].
  exact (chat_ok_iff_no_error_message Sample.prompt Sample.decode_error
           Sample.client (Sample.fails (py "connection refused")) 12
           Sample.question [] _ eq_refl).
Defined.

(** ** Closed instances for the decode-error handler *)





(** The group of the pattern ends at the first double quote after the
    opening one, also when a backslash stands before it. *)
Example fallback_stops_at_first_quote :
  field_search (py "answer") (pyq "{'answer': 'say \'hi\' to all', }")
  = Some (py "say \").
Proof. vm_compute. reflexivity. Qed.

(** ** The scanner of [_clean_json_string] *)

Section ScanFacts.
Import Clean.

Lemma scan_from_spec s : forall st,
  result (fold_left step s st)
  = result st ++ scan_from (in_string st) (escape_next st) s.
Proof.
  induction s as [|c r IH]; intros [res ins esc]; simpl.
  - by rewrite app_nil_r.
  - rewrite IH. unfold step. simpl.
    destruct esc; simpl; [by rewrite <- app_assoc|].
    destruct (c =? BACKSLASH); simpl; [by rewrite <- app_assoc|].
    destruct (c =? QUOTE); simpl; [by rewrite <- app_assoc|].
    destruct (ins && (c =? NL)); simpl; [by rewrite <- app_assoc|].
    destruct (ins && (c =? TAB)); simpl; by rewrite <- app_assoc.
Qed.

Lemma clean_json_string_eq s :
  _clean_json_string s = scan_from false false (remove_ctl s).
Proof. unfold _clean_json_string. by rewrite scan_from_spec. Qed.

Lemma scan_from_length ins esc s :
  (length s <= length (scan_from ins esc s))%nat.
Proof.
  revert ins esc. induction s as [|c r IH]; intros ins esc; simpl; [lia|].
  destruct esc; simpl; [specialize (IH ins false); lia|].
  destruct (c =? BACKSLASH); simpl; [specialize (IH ins true); lia|].
  destruct (c =? QUOTE); simpl; [specialize (IH (negb ins) false); lia|].
  destruct (ins && (c =? NL)); simpl; [specialize (IH ins false); lia|].
  destruct (ins && (c =? TAB)); simpl; specialize (IH ins false); lia.
Qed.


Lemma esc_head c r : exists t, scan_from false false (c :: r) = c :: t.
Proof.
  simpl. destruct (c =? BACKSLASH); [eauto|]. destruct (c =? QUOTE); eauto.
Qed.


(** Inside a string literal. *)
Lemma esi_quote r :
  scan_from true false (QUOTE :: r) = QUOTE :: scan_from false false r.
Proof. reflexivity. Qed.





End ScanFacts.

(** ** String literals *)

Section LitFacts.
Import Json.

Lemma scanstring_eq b x :
  scanstring b x
  = match x with
    | [] => None
    | c :: r =>
        if c =? QUOTE then Some ([], r)
        else if c =? BACKSLASH then
          match r with
          | [] => None
          | e :: r1 =>
              if e =? 117 then
                match r1 with
                | h1 :: h2 :: h3 :: h4 :: r2 =>
                    match decode_uXXXX h1 h2 h3 h4 with
                    | None => None
                    | Some uni =>
                        match low_after uni r2 with
                        | None => None
                        | Some None => consc uni (scanstring b r2)
                        | Some (Some (joined, r3)) =>
                            consc joined (scanstring b r3)
                        end
                    end
                | _ => None
                end
              else
                match backslash e with
                | Some char => consc char (scanstring b r1)
                | None => None
                end
          end
        else if c <? 32 then
          if raw_allowed b c then consc c (scanstring b r) else None
        else consc c (scanstring b r)
    end.
Proof.
  destruct x as [|c r]; [done|]. simpl.
  destruct (c =? QUOTE); [done|]. destruct (c =? BACKSLASH); [|done].
  destruct r as [|e r1]; [done|]. destruct (e =? 117); [|done].
  destruct r1 as [|h1 [|h2 [|h3 [|h4 r2]]]]; try done.
  destruct (decode_uXXXX h1 h2 h3 h4) as [uni|]; [|done].
  unfold low_after.
  destruct r2 as [|b0 [|u [|l1 [|l2 [|l3 [|l4 r3]]]]]]; try done.
  destruct (is_high uni && (b0 =? BACKSLASH) && (u =? 117)); [|done].
  destruct (decode_uXXXX l1 l2 l3 l4) as [uni2|]; [|done].
  by destruct (is_low uni2).
Qed.

Lemma consc_Some c o s rest :
  consc c o = Some (s, rest) ->
  exists s', o = Some (s', rest) /\ s = c :: s'.
Proof. destruct o as [[s' r']|]; simpl; [|done]. intros [= <- <-]. eauto. Qed.

(** The text that follows a joined pair is shorter. *)
Lemma low_after_pair uni r joined r3 :
  low_after uni r = Some (Some (joined, r3)) ->
  exists l1 l2 l3 l4 uni2,
    r = BACKSLASH :: 117 :: l1 :: l2 :: l3 :: l4 :: r3
    /\ is_high uni = true
    /\ decode_uXXXX l1 l2 l3 l4 = Some uni2
    /\ is_low uni2 = true
    /\ joined = join_surrogates uni uni2.
Proof.
  unfold low_after.
  destruct r as [|b0 [|u [|l1 [|l2 [|l3 [|l4 r']]]]]]; try done.
  destruct (is_high uni) eqn:Hh; [|done].
  destruct (N.eqb_spec b0 BACKSLASH) as [->|]; [|done].
  destruct (N.eqb_spec u 117) as [->|]; [|done]. simpl.
  destruct (decode_uXXXX l1 l2 l3 l4) as [uni2|] eqn:Hd; [|done].
  destruct (is_low uni2) eqn:Hl; [|done].
  intros [= <- <-]. by exists l1, l2, l3, l4, uni2.
Qed.

Lemma scanstring_Lit_1 b n : forall x s rest,
  (length x < n)%nat -> scanstring b x = Some (s, rest) -> Lit b x s rest.
Proof.
  induction n as [|n IH]; intros x s rest Hn; [lia|].
  rewrite scanstring_eq. destruct x as [|c r]; [done|]. simpl in Hn.
  destruct (N.eqb_spec c QUOTE) as [->|Hq].
  { intros [= <- <-]. constructor. }
  destruct (N.eqb_spec c BACKSLASH) as [->|Hb].
  - destruct r as [|e r1]; [done|]. simpl in Hn.
    destruct (N.eqb_spec e 117) as [->|He].
    + destruct r1 as [|h1 [|h2 [|h3 [|h4 r2]]]]; try done. simpl in Hn.
      destruct (decode_uXXXX h1 h2 h3 h4) as [uni|] eqn:Hd; [|done].
      destruct (low_after uni r2) as [[[joined r3]|]|] eqn:Hl; [| |done].
      * intros (s' & Hs & ->)%consc_Some.
        destruct (low_after_pair _ _ _ _ Hl) as (?&?&?&?&?&->&_).
        eapply Lit_pair; [done..|]. apply IH; [simpl in *; lia|done].
      * intros (s' & Hs & ->)%consc_Some.
        eapply Lit_u; [done..|]. apply IH; [lia|done].
    + destruct (backslash e) as [char|] eqn:Hbs; [|done].
      intros (s' & Hs & ->)%consc_Some.
      apply Lit_esc; [done..|]. apply IH; [lia|done].
  - destruct (c <? 32) eqn:Hc.
    + destruct (raw_allowed b c) eqn:Hr; [|done].
      intros (s' & Hs & ->)%consc_Some.
      apply Lit_char; [done|done|by right|]. apply IH; [lia|done].
    + intros (s' & Hs & ->)%consc_Some.
      apply Lit_char; [done|done|by left|]. apply IH; [lia|done].
Qed.

Lemma scanstring_Lit b x s rest :
  scanstring b x = Some (s, rest) <-> Lit b x s rest.
Proof.
  split; [apply (scanstring_Lit_1 b (S (length x))); lia|].
  induction 1 as [rest|c r s rest Hq Hb Hc _ IH|e char r s rest He Hbs _ IH
                 |h1 h2 h3 h4 uni r s rest Hd Hl _ IH
                 |h1 h2 h3 h4 uni r joined r3 s rest Hd Hl _ IH];
    rewrite scanstring_eq.
  - done.
  - destruct (N.eqb_spec c QUOTE); [done|].
    destruct (N.eqb_spec c BACKSLASH); [done|].
    rewrite IH. simpl. destruct Hc as [->| ->]; [done|].
    by destruct (c <? 32).
  - simpl. destruct (N.eqb_spec e 117); [done|]. by rewrite Hbs, IH.
  - simpl. by rewrite Hd, Hl, IH.
  - simpl. by rewrite Hd, Hl, IH.
Qed.

End LitFacts.

(** ** What the decoder consumes *)

Section Consumed.
Import Json.

Lemma is_ws_ok c : is_ws c = true -> ok_char c = true.
Proof.
  unfold is_ws.
  destruct (N.eqb_spec c SPACE) as [E|]; [by rewrite E|].
  destruct (N.eqb_spec c TAB) as [E|]; [by rewrite E|].
  destruct (N.eqb_spec c NL) as [E|]; [by rewrite E|].
  destruct (N.eqb_spec c CR) as [E|]; [by rewrite E|done].
Qed.

Lemma ge32_ok c : (c <? 32) = false -> ok_char c = true.
Proof.
  intros H%N.ltb_ge. unfold ok_char, Clean.is_ctl.
  destruct (N.eqb_spec c DEL) as [->|]; [done|].
  destruct (N.leb_spec c 8); [lia|].
  destruct (N.eqb_spec c 11); [lia|].
  destruct (N.eqb_spec c 12); [lia|].
  destruct (N.leb_spec c 31); [lia|].
  by rewrite andb_false_r.
Qed.

Lemma skip_ws_split x :
  exists w, x = w ++ skip_ws x /\ Forall (fun c => is_ws c = true) w.
Proof.
  induction x as [|c r (w & Hw & Hall)]; [by exists []|]. simpl.
  destruct (is_ws c) eqn:Hc; [|by exists []].
  exists (c :: w). split; [simpl; congruence|by constructor].
Qed.

Lemma skip_ws_ok x :
  exists w, x = w ++ skip_ws x /\ Forall (fun c => ok_char c = true) w.
Proof.
  destruct (skip_ws_split x) as (w & Hw & Hall). exists w. split; [done|].
  eapply Forall_impl; [done|]. apply is_ws_ok.
Qed.

Lemma hexval_ok c n : hexval c = Some n -> ok_char c = true.
Proof.
  unfold hexval. intros H. apply ge32_ok. apply N.ltb_ge.
  destruct (N.leb_spec 48 c); simpl in H; [lia|].
  destruct (N.leb_spec 65 c); simpl in H; [lia|].
  destruct (N.leb_spec 97 c); simpl in H; [lia|done].
Qed.

Lemma decode_uXXXX_ok a b c d n :
  decode_uXXXX a b c d = Some n ->
  Forall (fun c => ok_char c = true) [a; b; c; d].
Proof.
  unfold decode_uXXXX.
  destruct (hexval a) eqn:Ha, (hexval b) eqn:Hb, (hexval c) eqn:Hc,
    (hexval d) eqn:Hd; try done.
  intros _. repeat constructor; by eapply hexval_ok.
Qed.

Lemma backslash_ok e char : backslash e = Some char -> ok_char e = true.
Proof.
  unfold backslash. intros H. apply ge32_ok. apply N.ltb_ge.
  repeat match type of H with
         | context [N.eqb e ?k] => destruct (N.eqb_spec e k); [subst; by vm_compute|]
         end.
  done.
Qed.

Lemma Lit_split b x s rest :
  Lit b x s rest ->
  exists p, x = p ++ QUOTE :: rest /\ Forall (fun c => ok_char c = true) p.
Proof.
  induction 1 as [rest|c r s rest Hq Hb Hc _ (p & -> & Hp)
                 |e char r s rest He Hbs _ (p & -> & Hp)
                 |h1 h2 h3 h4 uni r s rest Hd Hl _ (p & -> & Hp)
                 |h1 h2 h3 h4 uni r joined r3 s rest Hd Hl _ (p & -> & Hp)].
  - by exists [].
  - exists (c :: p). split; [done|]. constructor; [|done].
    destruct Hc as [Hc|Hc]; [by apply ge32_ok|].
    unfold raw_allowed in Hc. apply andb_true_iff in Hc as [_ Hc].
    apply is_ws_ok. unfold is_ws.
    apply orb_true_iff in Hc as [-> | ->]; by rewrite ?orb_true_r.
  - exists (BACKSLASH :: e :: p). split; [done|].
    constructor; [done|]. constructor; [by eapply backslash_ok|done].
  - exists (BACKSLASH :: 117 :: h1 :: h2 :: h3 :: h4 :: p). split; [done|].
    constructor; [done|]. constructor; [done|].
    apply (Forall_app _ [h1; h2; h3; h4] p). split; [|done].
    by eapply decode_uXXXX_ok.
  - destruct (low_after_pair _ _ _ _ Hl) as (l1&l2&l3&l4&uni2&->&_&Hd2&_).
    exists (BACKSLASH :: 117 :: h1 :: h2 :: h3 :: h4
            :: BACKSLASH :: 117 :: l1 :: l2 :: l3 :: l4 :: p).
    split; [done|].
    constructor; [done|]. constructor; [done|].
    apply (Forall_app _ [h1; h2; h3; h4] (_ :: _)). split;
      [by eapply decode_uXXXX_ok|].
    constructor; [done|]. constructor; [done|].
    apply (Forall_app _ [l1; l2; l3; l4] p). split; [|done].
    by eapply decode_uXXXX_ok.
Qed.

(** Numbers and literals. *)
Lemma num_char_ok c : num_char c = true -> ok_char c = true.
Proof.
  unfold num_char, is_digit. intros H. apply ge32_ok, N.ltb_ge.
  destruct (N.leb_spec 48 c); [lia|]. simpl in H.
  repeat match type of H with
         | context [N.eqb c ?k] => destruct (N.eqb_spec c k); [subst; by vm_compute|]
         end.
  done.
Qed.

Lemma digits_split x d r :
  digits x = (d, r) -> x = d ++ r /\ Forall (fun c => is_digit c = true) d.
Proof.
  revert d r. induction x as [|c x IH]; intros d r; simpl.
  - by intros [= <- <-].
  - destruct (is_digit c) eqn:Hc; [|by intros [= <- <-]].
    destruct (digits x) as [d' r']. intros [= <- <-].
    destruct (IH _ _ eq_refl) as [-> Hd]. split; [done|by constructor].
Qed.

Lemma digits_num x d r :
  digits x = (d, r) -> x = d ++ r /\ Forall (fun c => num_char c = true) d.
Proof.
  intros [-> Hd]%digits_split. split; [done|].
  eapply Forall_impl; [done|]. intros c Hc. unfold num_char. by rewrite Hc.
Qed.

Lemma lex_nat_split x l r :
  lex_nat x = Some (l, r) ->
  x = l ++ r /\ Forall (fun c => num_char c = true) l /\ l <> [].
Proof.
  unfold lex_nat. destruct x as [|c x]; [done|].
  destruct (N.eqb_spec c ZERO) as [->|].
  - intros [= <- <-]. repeat split; [by repeat constructor|done].
  - destruct (is_digit c) eqn:Hc; [|done].
    destruct (digits x) as [d r'] eqn:Hd. intros [= <- <-].
    destruct (digits_num _ _ _ Hd) as [-> Hall].
    repeat split; [|done]. constructor; [|done].
    unfold num_char. by rewrite Hc.
Qed.

Lemma lex_int_split x l r :
  lex_int x = Some (l, r) ->
  x = l ++ r /\ Forall (fun c => num_char c = true) l /\ l <> [].
Proof.
  unfold lex_int. destruct x as [|c x]; [done|].
  destruct (N.eqb_spec c MINUS) as [->|]; [|apply lex_nat_split].
  destruct (lex_nat x) as [[d r']|] eqn:Hn; [|done]. intros [= <- <-].
  destruct (lex_nat_split _ _ _ Hn) as (-> & Hall & _).
  repeat split; [|done]. by constructor.
Qed.

Lemma lex_frac_split x l r :
  lex_frac x = (l, r) -> x = l ++ r /\ Forall (fun c => num_char c = true) l.
Proof.
  unfold lex_frac. destruct x as [|c x]; [by intros [= <- <-]|].
  destruct (N.eqb_spec c DOT) as [->|]; [|by intros [= <- <-]].
  destruct (digits x) as [[|d0 d] r'] eqn:Hd; intros [= <- <-]; [done|].
  destruct (digits_num _ _ _ Hd) as [-> Hall]. split; [done|by constructor].
Qed.

Lemma lex_exp_split x l r :
  lex_exp x = (l, r) -> x = l ++ r /\ Forall (fun c => num_char c = true) l.
Proof.
  unfold lex_exp. destruct x as [|e x]; [by intros [= <- <-]|].
  destruct ((e =? 101) || (e =? 69)) eqn:He; [|by intros [= <- <-]].
  assert (He' : num_char e = true).
  { unfold num_char. apply orb_true_iff in He as [-> | ->];
      by rewrite ?orb_true_r. }
  destruct x as [|sg x]; [by intros [= <- <-]|].
  destruct ((sg =? MINUS) || (sg =? PLUS)) eqn:Hs.
  - destruct (digits x) as [[|d0 d] r'] eqn:Hd; intros [= <- <-]; [done|].
    destruct (digits_num _ _ _ Hd) as [-> Hall]. split; [done|].
    constructor; [done|]. constructor; [|done].
    unfold num_char. apply orb_true_iff in Hs as [-> | ->];
      by rewrite ?orb_true_r.
  - destruct (digits (sg :: x)) as [[|d0 d] r'] eqn:Hd; intros [= <- <-]; [done|].
    destruct (digits_num _ _ _ Hd) as [-> Hall]. split; [done|by constructor].
Qed.

Lemma literal_split lit x r : literal lit x = Some r -> x = lit ++ r.
Proof.
  unfold literal. destruct (Str.startswith lit x) eqn:H; [|done].
  intros [= <-]. revert x H. induction lit as [|c lit IH]; intros x H; [done|].
  destruct x as [|c' x]; [done|]. simpl in H.
  apply andb_true_iff in H as [->%N.eqb_eq H]. simpl. f_equal. by apply IH.
Qed.

Lemma eats_refl x : eats x x 0.
Proof. exists []. repeat split; [constructor|simpl; lia]. Qed.

Lemma eats_trans x y z n m : eats x y n -> eats y z m -> eats x z (n + m).
Proof.
  intros (p & -> & Hp & Hn) (q & -> & Hq & Hm). exists (p ++ q).
  rewrite <- app_assoc, Forall_app, length_app. repeat split; [done..|lia].
Qed.

Lemma eats_le x y n m : eats x y n -> (m <= n)%nat -> eats x y m.
Proof. intros (p & -> & Hp & Hn) Hm. exists p. repeat split; [done|lia]. Qed.

Lemma eats_cons c r : ok_char c = true -> eats (c :: r) r 1.
Proof. intros Hc. exists [c]. repeat split; [by constructor|simpl; lia]. Qed.

Lemma eats_skip_ws x : eats x (skip_ws x) 0.
Proof.
  destruct (skip_ws_ok x) as (w & Hw & Hall). exists w.
  repeat split; [done..|lia].
Qed.

(** After [skip_ws], when the next character is [c]. *)
Lemma eats_skip_ws_cons x c r :
  skip_ws x = c :: r -> ok_char c = true -> eats x r 1.
Proof.
  intros H Hc. apply (eats_trans x (skip_ws x) r 0 1); [apply eats_skip_ws|].
  rewrite H. by apply eats_cons.
Qed.

Lemma eats_Lit b x s rest : Lit b x s rest -> eats x rest 1.
Proof.
  intros (p & -> & Hp)%Lit_split. exists (p ++ [QUOTE]).
  rewrite <- app_assoc, Forall_app, length_app.
  repeat split; [done|by repeat constructor|simpl; lia].
Qed.

Lemma match_number_reads x v r :
  match_number x = Some (v, r) -> reads x v r /\ scalar v.
Proof.
  unfold match_number. destruct (lex_int x) as [[i r0]|] eqn:Hi; [|done].
  destruct (lex_frac r0) as [f r1] eqn:Hf.
  destruct (lex_exp r1) as [e r2] eqn:He. intros [= <- <-].
  destruct (lex_int_split _ _ _ Hi) as (-> & Hi' & Hne).
  destruct (lex_frac_split _ _ _ Hf) as (-> & Hf').
  destruct (lex_exp_split _ _ _ He) as (-> & He').
  split; [|done]. split; [|done].
  exists (i ++ f ++ e). split; [by rewrite <- !app_assoc|]. split.
  - eapply Forall_impl; [|apply num_char_ok]. by rewrite !Forall_app.
  - destruct i; [done|]. simpl. lia.
Qed.

Lemma literal_reads lit x v r :
  literal lit x = Some r ->
  Forall (fun c => ok_char c = true) lit -> lit <> [] ->
  scalar v ->
  reads x v r.
Proof.
  intros ->%literal_split Hok Hne Hv. split.
  - exists lit. split; [done|]. split; [done|].
    destruct v; try done; destruct lit; try done; simpl; lia.
  - by intros pairs ->.
Qed.

Lemma scan_scalar_reads x v r :
  scan_scalar x = Some (v, r) -> reads x v r /\ scalar v.
Proof.
  unfold scan_scalar.
  repeat match goal with
         | |- match literal ?l x with _ => _ end = _ -> _ =>
             let H := fresh "H" in
             destruct (literal l x) eqn:H;
             [intros [= <- <-]; split; [|done];
              eapply literal_reads; [done| |done|done];
              by repeat constructor|]
         end.
  - destruct (match_number x) as [[v' r']|] eqn:Hn.
    + intros [= <- <-]. by apply match_number_reads.
    + repeat match goal with
         | |- match literal ?l x with _ => _ end = _ -> _ =>
             let H := fresh "H" in
             destruct (literal l x) eqn:H;
             [intros [= <- <-]; split; [|done];
              eapply literal_reads; [done| |done|done];
              by repeat constructor|]
         end.
      done.
Qed.

Lemma array_items_reads scan n : scan_reads scan -> forall s vs rest,
  array_items scan n s = Some (vs, rest) ->
  exists k,
    eats s rest (S k)
    /\ (length vs <= k)%nat
    /\ Forall (fun v => (need v <= k)%nat) vs.
Proof.
  intros Hscan. induction n as [|n IH]; intros s vs rest; [done|]. simpl.
  destruct (scan s) as [[v r]|] eqn:Hv; [|done].
  destruct (Hscan _ _ _ Hv) as [Hv' _].
  destruct (skip_ws r) as [|c r'] eqn:Hws; [done|].
  destruct (N.eqb_spec c RBRACKET) as [->|].
  - intros [= <- <-]. exists (need v). split; [|split].
    + replace (S (need v)) with (need v + 1)%nat by lia.
      eapply eats_trans; [done|]. by eapply eats_skip_ws_cons.
    + simpl. destruct v; simpl; lia.
    + by repeat constructor.
  - destruct (N.eqb_spec c COMMA) as [->|]; [|done].
    destruct (array_items scan n (skip_ws r')) as [[vs' r'']|] eqn:Hrec; [|done].
    intros [= <- <-]. destruct (IH _ _ _ Hrec) as (k & Hk & Hlen & Hall).
    exists (need v + 1 + k)%nat. split; [|split].
    + eapply eats_le.
      * eapply eats_trans; [exact Hv'|].
        eapply eats_trans; [by eapply eats_skip_ws_cons|].
        eapply eats_trans; [apply eats_skip_ws|exact Hk].
      * lia.
    + simpl. lia.
    + constructor; [lia|]. eapply Forall_impl; [done|]. simpl. lia.
Qed.

Lemma object_pairs_reads b scan n : scan_reads scan -> forall s pairs rest,
  object_pairs b scan n s = Some (pairs, rest) ->
  exists k,
    eats s rest (S k)
    /\ (length pairs <= k)%nat
    /\ Forall (fun p => (need p.2 <= k)%nat) pairs
    /\ exists p', s = p' ++ RBRACE :: rest.
Proof.
  intros Hscan. induction n as [|n IH]; intros s pairs rest; [done|]. simpl.
  destruct (scanstring b s) as [[key r]|] eqn:Hkey; [|done].
  apply scanstring_Lit in Hkey.
  pose proof (eats_Lit _ _ _ _ Hkey) as Hk1.
  destruct (skip_ws r) as [|c r1] eqn:Hws1; [done|].
  destruct (N.eqb_spec c COLON) as [->|]; [|done].
  destruct (scan (skip_ws r1)) as [[v r2]|] eqn:Hv; [|done].
  destruct (Hscan _ _ _ Hv) as [Hv' _].
  destruct (skip_ws r2) as [|c2 r3] eqn:Hws2; [done|].
  assert (Hhead : eats s r2 (1 + need v)).
  { eapply eats_le.
    - eapply eats_trans; [exact Hk1|].
      eapply eats_trans; [by eapply eats_skip_ws_cons|].
      eapply eats_trans; [apply eats_skip_ws|exact Hv'].
    - lia. }
  destruct (N.eqb_spec c2 RBRACE) as [->|].
  - intros [= <- <-]. exists (1 + need v)%nat. split; [|split; [|split]].
    + eapply eats_le;
        [eapply eats_trans; [exact Hhead|by eapply eats_skip_ws_cons]|lia].
    + simpl. lia.
    + constructor; [simpl; lia|constructor].
    + destruct Hhead as (p & -> & _).
      destruct (skip_ws_split r2) as (w & Hw & _). rewrite Hws2 in Hw.
      exists (p ++ w). by rewrite <- app_assoc, <- Hw.
  - destruct (N.eqb_spec c2 COMMA) as [->|]; [|done].
    destruct (skip_ws r3) as [|q r4] eqn:Hws3; [done|].
    destruct (N.eqb_spec q QUOTE) as [->|]; [|done].
    destruct (object_pairs b scan n r4) as [[ps r5]|] eqn:Hrec; [|done].
    intros [= <- <-].
    destruct (IH _ _ _ Hrec) as (k & Hk & Hlen & Hall & p' & Hp').
    assert (Hmid : eats s r4 (1 + need v + 2)).
    { eapply eats_le.
      - eapply eats_trans; [exact Hhead|].
        eapply eats_trans; [by eapply eats_skip_ws_cons|].
        by eapply eats_skip_ws_cons.
      - lia. }
    exists (1 + need v + 2 + k)%nat. split; [|split; [|split]].
    + eapply eats_le; [eapply eats_trans; [exact Hmid|exact Hk]|lia].
    + simpl. lia.
    + constructor; [simpl; lia|]. eapply Forall_impl; [done|]. simpl. lia.
    + destruct Hmid as (p & -> & _). exists (p ++ p').
      by rewrite <- app_assoc, <- Hp'.
Qed.

Lemma list_max_need_le {A} (f : A -> nat) l k :
  Forall (fun a => (f a <= k)%nat) l -> (list_max (map f l) <= k)%nat.
Proof.
  induction 1 as [|a l Ha _ IH]; simpl; lia.
Qed.

(** [scan_once] reads: the characters it takes are not control
    characters, [DEL] apart; they number at least the fuel the value
    takes; an object ends with its closing brace. *)
Lemma scan_once_reads b fuel : scan_reads (scan_once b fuel).
Proof.
  induction fuel as [|f IH]; intros x v rest; [done|]. simpl.
  destruct x as [|c r]; [done|].
  destruct (N.eqb_spec c QUOTE) as [->|].
  { destruct (scanstring b r) as [[str r']|] eqn:Hs; [|done].
    intros [= <- <-]. apply scanstring_Lit, eats_Lit in Hs.
    split; [|done]. simpl.
    eapply eats_le; [eapply eats_trans; [by apply eats_cons|exact Hs]|lia]. }
  destruct (N.eqb_spec c LBRACE) as [->|].
  { unfold JSONObject.
    destruct (skip_ws r) as [|c1 r1] eqn:Hws; [done|].
    destruct (N.eqb_spec c1 RBRACE) as [->|].
    - intros [= <- <-]. split.
      + simpl. eapply eats_le;
          [eapply eats_trans; [by apply eats_cons|by eapply eats_skip_ws_cons]|lia].
      + intros _ _. destruct (skip_ws_split r) as (w & Hw & _).
        rewrite Hws in Hw. exists (LBRACE :: w). simpl. by rewrite <- Hw.
    - destruct (N.eqb_spec c1 QUOTE) as [->|]; [|done].
      destruct (object_pairs b (scan_once b f) f r1) as [[ps r']|] eqn:Hps; [|done].
      intros [= <- <-].
      destruct (object_pairs_reads _ _ _ IH _ _ _ Hps)
        as (k & Hk & Hlen & Hall & p' & Hp').
      assert (Hpre : eats (LBRACE :: r) r1 2).
      { eapply eats_le;
          [eapply eats_trans; [by apply eats_cons|by eapply eats_skip_ws_cons]|lia]. }
      split.
      + simpl. eapply eats_le; [eapply eats_trans; [exact Hpre|exact Hk]|].
        pose proof (list_max_need_le (fun p => need p.2) ps k Hall). lia.
      + intros _ _. destruct Hpre as (p & -> & _). exists (p ++ p').
        by rewrite <- app_assoc, <- Hp'. }
  destruct (N.eqb_spec c LBRACKET) as [->|].
  { unfold JSONArray.
    destruct (skip_ws r) as [|c1 r1] eqn:Hws; [done|].
    destruct (N.eqb_spec c1 RBRACKET) as [->|].
    - intros [= <- <-]. split; [|done]. simpl.
      eapply eats_le;
        [eapply eats_trans; [by apply eats_cons|by eapply eats_skip_ws_cons]|lia].
    - destruct (array_items (scan_once b f) f (c1 :: r1)) as [[vs r']|] eqn:Hvs;
        [|done].
      intros [= <- <-].
      destruct (array_items_reads _ _ IH _ _ _ Hvs) as (k & Hk & Hlen & Hall).
      split; [|done]. simpl. rewrite <- Hws in Hk.
      eapply eats_le.
      + eapply eats_trans; [by apply eats_cons|].
        eapply eats_trans; [apply eats_skip_ws|exact Hk].
      + pose proof (list_max_need_le need vs k Hall). lia. }
  intros H. by apply scan_scalar_reads.
Qed.

End Consumed.

(** ** Fuel *)

Section Fuel.
Import Json.

Lemma list_max_need_ge {A} (f : A -> nat) l k :
  (list_max (map f l) <= k)%nat -> Forall (fun a => (f a <= k)%nat) l.
Proof.
  induction l as [|a l IH]; simpl; [constructor|].
  intros H. constructor; [lia|apply IH; lia].
Qed.

Lemma array_items_fuel scan scan' k n : scan_upto k scan scan' ->
  forall n' s vs rest,
    array_items scan n s = Some (vs, rest) ->
    Forall (fun v => (need v <= k)%nat) vs ->
    (length vs <= n')%nat ->
    array_items scan' n' s = Some (vs, rest).
Proof.
  intros Hscan. induction n as [|n IH]; intros n' s vs rest; [done|]. simpl.
  destruct (scan s) as [[v r]|] eqn:Hv; [|done].
  destruct (skip_ws r) as [|c r'] eqn:Hws; [done|].
  destruct (N.eqb_spec c RBRACKET) as [->|].
  - intros [= <- <-] Hall Hn. inversion Hall; subst.
    destruct n' as [|n']; [simpl in Hn; lia|]. simpl.
    by rewrite (Hscan _ _ _ Hv), Hws.
  - destruct (N.eqb_spec c COMMA) as [->|]; [|done].
    destruct (array_items scan n (skip_ws r')) as [[vs' r'']|] eqn:Hrec; [|done].
    intros [= <- <-] Hall Hn. inversion Hall; subst.
    destruct n' as [|n']; [simpl in Hn; lia|]. simpl.
    rewrite (Hscan _ _ _ Hv), Hws by done. simpl.
    rewrite (IH n' _ _ _ Hrec); [done|done|simpl in Hn; lia].
Qed.

Lemma object_pairs_fuel b scan scan' k n : scan_upto k scan scan' ->
  forall n' s pairs rest,
    object_pairs b scan n s = Some (pairs, rest) ->
    Forall (fun p => (need p.2 <= k)%nat) pairs ->
    (length pairs <= n')%nat ->
    object_pairs b scan' n' s = Some (pairs, rest).
Proof.
  intros Hscan. induction n as [|n IH]; intros n' s pairs rest; [done|]. simpl.
  destruct (scanstring b s) as [[key r]|] eqn:Hkey; [|done].
  destruct (skip_ws r) as [|c r1] eqn:Hws1; [done|].
  destruct (N.eqb_spec c COLON) as [->|]; [|done].
  destruct (scan (skip_ws r1)) as [[v r2]|] eqn:Hv; [|done].
  destruct (skip_ws r2) as [|c2 r3] eqn:Hws2; [done|].
  destruct (N.eqb_spec c2 RBRACE) as [->|].
  - intros [= <- <-] Hall Hn. inversion Hall; subst.
    destruct n' as [|n']; [simpl in Hn; lia|]. simpl.
    by rewrite Hkey, Hws1, (Hscan _ _ _ Hv), Hws2.
  - destruct (N.eqb_spec c2 COMMA) as [->|]; [|done].
    destruct (skip_ws r3) as [|q r4] eqn:Hws3; [done|].
    destruct (N.eqb_spec q QUOTE) as [->|]; [|done].
    destruct (object_pairs b scan n r4) as [[ps r5]|] eqn:Hrec; [|done].
    intros [= <- <-] Hall Hn. inversion Hall; subst.
    destruct n' as [|n']; [simpl in Hn; lia|]. simpl.
    rewrite Hkey, Hws1, (Hscan _ _ _ Hv), Hws2 by done. simpl. rewrite Hws3. simpl.
    rewrite (IH n' _ _ _ Hrec); [done|done|simpl in Hn; lia].
Qed.

(** A value is read with any fuel that is at least its need. *)
Lemma scan_once_fuel b f : forall f',
  scan_upto f' (scan_once b f) (scan_once b f').
Proof.
  induction f as [|f IH]; intros f' x v rest; [done|]. simpl.
  destruct x as [|c r]; [done|].
  destruct (N.eqb_spec c QUOTE) as [Hq|Hq].
  { destruct (scanstring b r) as [[str r']|] eqn:Hs; [|done].
    intros [= <- <-] Hn. destruct f'; [simpl in Hn; lia|]. simpl.
    destruct (N.eqb_spec c QUOTE); [|done]. by rewrite Hs. }
  destruct (N.eqb_spec c LBRACE) as [Hb|Hb].
  { unfold JSONObject.
    destruct (skip_ws r) as [|c1 r1] eqn:Hws; [done|].
    destruct (N.eqb_spec c1 RBRACE) as [->|].
    - intros [= <- <-] Hn. destruct f'; [simpl in Hn; lia|]. simpl.
      destruct (N.eqb_spec c QUOTE); [done|].
      destruct (N.eqb_spec c LBRACE); [|done].
      unfold JSONObject. by rewrite Hws.
    - destruct (N.eqb_spec c1 QUOTE) as [->|]; [|done].
      destruct (object_pairs b (scan_once b f) f r1) as [[ps r']|] eqn:Hps; [|done].
      intros [= <- <-] Hn. destruct f' as [|f']; [simpl in Hn; lia|]. simpl.
      destruct (N.eqb_spec c QUOTE); [done|].
      destruct (N.eqb_spec c LBRACE); [|done].
      unfold JSONObject. rewrite Hws. simpl.
      simpl in Hn.
      rewrite (object_pairs_fuel b _ (scan_once b f') f' f (IH f') f' _ _ _ Hps);
        [done| |lia].
      apply list_max_need_ge. lia. }
  destruct (N.eqb_spec c LBRACKET) as [Hk|Hk].
  { unfold JSONArray.
    destruct (skip_ws r) as [|c1 r1] eqn:Hws; [done|].
    destruct (N.eqb_spec c1 RBRACKET) as [->|].
    - intros [= <- <-] Hn. destruct f'; [simpl in Hn; lia|]. simpl.
      destruct (N.eqb_spec c QUOTE); [done|].
      destruct (N.eqb_spec c LBRACE); [done|].
      destruct (N.eqb_spec c LBRACKET); [|done].
      unfold JSONArray. by rewrite Hws.
    - destruct (array_items (scan_once b f) f (c1 :: r1)) as [[vs r']|] eqn:Hvs;
        [|done].
      intros [= <- <-] Hn. destruct f' as [|f']; [simpl in Hn; lia|]. simpl.
      destruct (N.eqb_spec c QUOTE); [done|].
      destruct (N.eqb_spec c LBRACE); [done|].
      destruct (N.eqb_spec c LBRACKET); [|done].
      unfold JSONArray. rewrite Hws.
      destruct (N.eqb_spec c1 RBRACKET); [done|].
      simpl in Hn.
      rewrite (array_items_fuel _ (scan_once b f') f' f (IH f') f' _ _ _ Hvs);
        [done| |lia].
      apply list_max_need_ge. lia. }
  intros Hs Hn. destruct f'; [destruct v; simpl in Hn; lia|]. simpl.
  destruct (N.eqb_spec c QUOTE); [done|].
  destruct (N.eqb_spec c LBRACE); [done|].
  by destruct (N.eqb_spec c LBRACKET).
Qed.

(** The fuel [decode] starts with is enough for every value of the text:
    a value that is read with some fuel is read with one more than the
    length of the text it is read from. *)
Lemma scan_once_need b f x v rest :
  scan_once b f x = Some (v, rest) ->
  scan_once b (S (length x)) x = Some (v, rest).
Proof.
  intros H. eapply scan_once_fuel; [done|].
  destruct (scan_once_reads _ _ _ _ _ H) as [(p & -> & _ & Hn) _].
  rewrite length_app. lia.
Qed.

End Fuel.

(** ** Texts the decoder reads alike

    [To] rewrites a text from outside a string literal and [Ti] from
    inside one.  When they keep the characters the decoder decides on and
    [Ti] keeps the value of a literal, the decoder reads [To x] as it reads
    [x].  The scanner of [_clean_json_string] is one instance, cutting the
    whitespace at the end of the text another. *)

Section Alike.
Import Json.

Variables b b' : bool.
Variables To Ti : pystr -> pystr.

Hypothesis To_nil : To [] = [].
Hypothesis To_cons : forall c r,
  is_ws c = false -> c <> QUOTE -> c <> BACKSLASH -> To (c :: r) = c :: To r.
Hypothesis To_quote : forall r, To (QUOTE :: r) = QUOTE :: Ti r.
Hypothesis To_backslash : forall r, exists t, To (BACKSLASH :: r) = BACKSLASH :: t.
Hypothesis To_ws : forall c r,
  is_ws c = true ->
  To (c :: r) = c :: To r \/ (To (c :: r) = [] /\ skip_ws r = []).
Hypothesis Ti_string : forall x s rest,
  scanstring b x = Some (s, rest) -> scanstring b' (Ti x) = Some (s, To rest).

(** [To x] starts as [x] does, or is empty where [x] is whitespace. *)
Lemma To_head c r :
  (exists t, To (c :: r) = c :: t) \/ (is_ws c = true /\ To (c :: r) = []).
Proof.
  destruct (is_ws c) eqn:Hws.
  - destruct (To_ws c r Hws) as [->|[-> _]]; eauto.
  - destruct (N.eqb_spec c QUOTE) as [->|]; [rewrite To_quote; eauto|].
    destruct (N.eqb_spec c BACKSLASH) as [->|]; [left; apply To_backslash|].
    rewrite To_cons by done. eauto.
Qed.


(** A test on the first character that fails on whitespace. *)
Lemma head_test (P : N -> bool) c r :
  (forall c, is_ws c = true -> P c = false) ->
  P c = false ->
  match To (c :: r) with c' :: _ => P c' = false | [] => True end.
Proof.
  intros Hws Hc. by destruct (To_head c r) as [[t ->]|[? ->]].
Qed.



















(** A value read with some fuel is read with any fuel that is at least the
    length of the text. *)
Lemma scan_once_length bb f f' y v rest :
  scan_once bb f y = Some (v, rest) ->
  (length y <= f')%nat ->
  scan_once bb f' y = Some (v, rest).
Proof.
  intros H Hf. eapply scan_once_fuel; [done|].
  destruct (scan_once_reads _ _ _ _ _ H) as [(p & -> & _ & Hn) _].
  rewrite length_app in Hf. lia.
Qed.



End Alike.

(** ** Literals under the scanner and under [cut] *)

Section LitAlike.
Import Json.

Lemma low_after_first uni c t : c <> BACKSLASH -> low_after uni (c :: t) = Some None.
Proof.
  intros Hc. unfold low_after.
  destruct t as [|u [|l1 [|l2 [|l3 [|l4 r3]]]]]; try done.
  destruct (N.eqb_spec c BACKSLASH); [done|]. by rewrite andb_false_r.
Qed.

Lemma low_after_second uni c e t : e <> 117 -> low_after uni (c :: e :: t) = Some None.
Proof.
  intros He. unfold low_after.
  destruct t as [|l1 [|l2 [|l3 [|l4 r3]]]]; try done.
  destruct (N.eqb_spec e 117); [done|]. by rewrite andb_false_r.
Qed.







(** *** The scanner *)









(** *** [cut] *)










End LitAlike.

(** ** A reply that decodes to an object *)

Section ObjectReply.
Import Json.













End ObjectReply.

Section ExactReply.
Import Json.


Lemma strip_fence_brace p : strip_fence (LBRACE :: p) = LBRACE :: p.
Proof. done. Qed.


End ExactReply.

Section ContractFacts.
Variable SYSTEM_PROMPT : pystr.
Variable decode_error : pystr -> pystr.
Variable self : LLMClient.
Variable create : kwargs -> outcome.
Variable elapsed : Z.

Let run := chat SYSTEM_PROMPT decode_error self create elapsed.
Let kw := request_kwargs SYSTEM_PROMPT self.

Lemma chat_decoded messages session_history content usage pairs :
  create (kw messages session_history) = Returns (Some content) usage ->
  Json.loads (sanitized content) = Some (Json.Object pairs) ->
  run messages session_history = inl (ok_result self elapsed usage pairs).
Proof.
  unfold run, chat, chat_try, kw. intros -> Hloads. cbn zeta.
  fold (sanitized content). by rewrite Hloads.
Qed.


End ContractFacts.

(** ** Removing control characters from a contract object *)

Section RemoveCtl.
Import Json.



























End RemoveCtl.

(** ** A contract object with raw newlines or tabs *)

Section RawNewline.
Import Json.






Lemma del_alike_refl s : del_alike s s.
Proof. by split. Qed.




End RawNewline.

Section RawNewlineChat.
Variable SYSTEM_PROMPT : pystr.
Variable decode_error : pystr -> pystr.
Variable self : LLMClient.
Variable create : kwargs -> outcome.
Variable elapsed : Z.

Let run := chat SYSTEM_PROMPT decode_error self create elapsed.
Let kw := request_kwargs SYSTEM_PROMPT self.


End RawNewlineChat.

(** ** Closed instances for replies that decode *)

Lemma not_elem_of_forallb (a : N) l :
  forallb (fun c => negb (c =? a)) l = true -> a ∉ l.
Proof.
  induction l as [|c l IH]; simpl; [intros _; apply not_elem_of_nil|].
  intros [Hc Hl]%andb_true_iff. apply not_elem_of_cons. split; [|by apply IH].
  intros ->. by rewrite N.eqb_refl in Hc.
Qed.




(** The example of the specification: the fenced reply gives the answer
    and the query of its body. *)
Example assets_example :
  Sample.ask (Sample.replies (wrap_fence (py "json") Sample.assets_reply))
  = inl {| natural_language_answer := Json.String (py "You have 42 assets.");
           sql_query :=
             Json.String (py "SELECT COUNT(" ++ [42]
                          ++ py ") FROM Assets WHERE Status <> " ++ [39]
                          ++ py "Disposed" ++ [39]);
           token_usage := ZERO_USAGE;
           latency_ms := 12;
           provider := ollama;
           model := py "llama3.2";
           status := ok;
           error_message := None |}.
Proof. vm_compute. reflexivity. Qed.

(** * The environment, the encoder and the requests *)

(** ** The environment file *)

Section StripFacts.

Lemma lstrip_spaces w t :
  Forall (fun c => Str.isspace c = true) w -> Str.lstrip (w ++ t) = Str.lstrip t.
Proof. induction 1 as [|c w Hc _ IH]; [done|]. simpl. by rewrite Hc. Qed.

(** What [lstrip] takes away is whitespace, and what it leaves does not
    start with any. *)
Lemma lstrip_split s :
  exists w, s = w ++ Str.lstrip s
    /\ Forall (fun c => Str.isspace c = true) w
    /\ match Str.lstrip s with
       | c :: _ => Str.isspace c = false
       | [] => True
       end.
Proof.
  induction s as [|c s (w & Hs & Hw & Hh)]; [by exists []|]. simpl.
  destruct (Str.isspace c) eqn:Hc.
  - exists (c :: w). split; [simpl; congruence|]. split; [by constructor|done].
  - exists []. by rewrite Hc.
Qed.

Lemma rstrip_split s :
  exists w, s = Str.rstrip s ++ w
    /\ Forall (fun c => Str.isspace c = true) w
    /\ match rev (Str.rstrip s) with
       | c :: _ => Str.isspace c = false
       | [] => True
       end.
Proof.
  unfold Str.rstrip. destruct (lstrip_split (rev s)) as (w & Hs & Hw & Hh).
  exists (rev w). rewrite rev_involutive. split; [|split; [by apply Forall_rev|done]].
  rewrite <- rev_app_distr, <- Hs. by rewrite rev_involutive.
Qed.

Lemma lstrip_fix s :
  match s with c :: _ => Str.isspace c = false | [] => True end ->
  Str.lstrip s = s.
Proof. destruct s as [|c s]; [done|]. simpl. by intros ->. Qed.

Lemma rstrip_fix s :
  match rev s with c :: _ => Str.isspace c = false | [] => True end ->
  Str.rstrip s = s.
Proof.
  intros H. unfold Str.rstrip. rewrite lstrip_fix by done. apply rev_involutive.
Qed.

(** The two ends of a stripped text. *)
Lemma strip_ends s :
  match Str.strip s with c :: _ => Str.isspace c = false | [] => True end
  /\ match rev (Str.strip s) with c :: _ => Str.isspace c = false | [] => True end.
Proof.
  unfold Str.strip.
  destruct (lstrip_split s) as (w & _ & _ & Hh).
  destruct (rstrip_split (Str.lstrip s)) as (w' & Hs' & Hw' & Hh').
  split; [|done].
  destruct (Str.rstrip (Str.lstrip s)) as [|c t] eqn:E; [done|].
  rewrite Hs' in Hh. by simpl in Hh.
Qed.

Lemma strip_fix s :
  match s with c :: _ => Str.isspace c = false | [] => True end ->
  match rev s with c :: _ => Str.isspace c = false | [] => True end ->
  Str.strip s = s.
Proof.
  intros H1 H2. unfold Str.strip. rewrite lstrip_fix by done. by apply rstrip_fix.
Qed.

Lemma strip_strip s : Str.strip (Str.strip s) = Str.strip s.
Proof. destruct (strip_ends s). by apply strip_fix. Qed.

Lemma stripped_ends s :
  stripped s ->
  match s with c :: _ => Str.isspace c = false | [] => True end
  /\ match rev s with c :: _ => Str.isspace c = false | [] => True end.
Proof. intros H. rewrite <- H. apply strip_ends. Qed.

(** Whitespace around a stripped text that is not empty goes away. *)
Lemma strip_pad w1 s w2 :
  stripped s -> s <> [] ->
  Forall (fun c => Str.isspace c = true) w1 ->
  Forall (fun c => Str.isspace c = true) w2 ->
  Str.strip (w1 ++ s ++ w2) = s.
Proof.
  intros Hs Hne H1 H2. destruct (stripped_ends s Hs) as [Hh Ht].
  unfold Str.strip. rewrite lstrip_spaces by done.
  destruct s as [|c s]; [done|].
  rewrite lstrip_fix by done. unfold Str.rstrip.
  rewrite rev_app_distr, lstrip_spaces by (by apply Forall_rev).
  rewrite lstrip_fix by done. apply rev_involutive.
Qed.

Lemma strip_pad_r s w :
  stripped s -> s <> [] ->
  Forall (fun c => Str.isspace c = true) w ->
  Str.strip (s ++ w) = s.
Proof. intros Hs Hne Hw. by apply (strip_pad [] s w). Qed.

Lemma strip_spaces w :
  Forall (fun c => Str.isspace c = true) w -> Str.strip w = [].
Proof.
  intros H. unfold Str.strip.
  rewrite <- (app_nil_r w), lstrip_spaces by done. done.
Qed.

(** [strip] keeps a part of the text. *)
Lemma strip_split s :
  exists w1 w2, s = w1 ++ Str.strip s ++ w2
    /\ Forall (fun c => Str.isspace c = true) w1
    /\ Forall (fun c => Str.isspace c = true) w2.
Proof.
  unfold Str.strip.
  destruct (lstrip_split s) as (w & Hs & Hw & _).
  destruct (rstrip_split (Str.lstrip s)) as (w' & Hs' & Hw' & _).
  exists w, w'. split; [|done]. by rewrite <- Hs'.
Qed.

End StripFacts.

Section PartitionFacts.

Lemma contains_elem c s : StrOps.contains c s = true <-> c ∈ s.
Proof.
  unfold StrOps.contains. induction s as [|x s IH]; simpl.
  - split; [done|]. by intros ?%elem_of_nil.
  - rewrite orb_true_iff, IH, elem_of_cons.
    destruct (N.eqb_spec c x); split; intros [|]; auto; done.
Qed.

Lemma contains_false c s : StrOps.contains c s = false <-> c ∉ s.
Proof.
  rewrite <- contains_elem. destruct (StrOps.contains c s); naive_solver.
Qed.

(** [partition] at the first separator. *)
Lemma partition_app sep a b :
  sep ∉ a -> StrOps.partition sep (a ++ sep :: b) = (a, [sep], b).
Proof.
  induction a as [|c a IH]; intros Ha; simpl.
  - by rewrite N.eqb_refl.
  - apply not_elem_of_cons in Ha as [Hc Ha].
    destruct (N.eqb_spec c sep); [congruence|]. by rewrite IH.
Qed.

Lemma partition_split sep s :
  sep ∈ s ->
  exists a b, s = a ++ sep :: b /\ (sep ∉ a)
    /\ StrOps.partition sep s = (a, [sep], b).
Proof.
  induction s as [|c s IH]; [by intros ?%elem_of_nil|]. intros Hin. simpl.
  destruct (N.eqb_spec c sep) as [->|Hc].
  - exists [], s. split; [done|]. split; [apply not_elem_of_nil|done].
  - apply elem_of_cons in Hin as [->|Hin]; [done|].
    destruct (IH Hin) as (a & b & -> & Ha & ->).
    exists (c :: a), b. split; [done|]. split; [|done].
    apply not_elem_of_cons. split; [congruence|done].
Qed.

End PartitionFacts.

Section ParseLine.

Lemma truthy_ne s : StrOps.truthy s = true <-> s <> [].
Proof. destruct s; simpl; split; done. Qed.

Lemma startswith_one c s :
  Str.startswith [c] s = true <-> exists r, s = c :: r.
Proof.
  destruct s as [|x r]; simpl.
  - split; [done|]. by intros [? ?].
  - rewrite andb_true_r. destruct (N.eqb_spec c x) as [->|]; split; eauto; try done.
    intros [? [= ]]. congruence.
Qed.

Lemma endswith_one c s :
  StrOps.endswith [c] s = true <-> exists r, s = r ++ [c].
Proof.
  unfold StrOps.endswith. change (rev [c]) with [c]. rewrite startswith_one.
  split.
  - intros [r Hr]. exists (rev r).
    rewrite <- (rev_involutive s), Hr. done.
  - intros [r ->]. exists (rev r). by rewrite rev_app_distr.
Qed.

(** What a line that sets something looks like: the stripped line is the
    part before the first equals sign, the sign, and the part after it. *)
Lemma parse_line_inv line key value :
  parse_line line = Some (key, value) ->
  exists a b,
    Str.strip line = a ++ EQUALS :: b /\ (EQUALS ∉ a)
    /\ Str.startswith [HASH] (Str.strip line) = false
    /\ key = Str.strip a
    /\ (value = Str.strip b \/ value = Str.slice_1_m1 (Str.strip b)).
Proof.
  unfold parse_line. cbn zeta.
  destruct (negb (StrOps.truthy (Str.strip line))
            || Str.startswith [HASH] (Str.strip line)) eqn:E1; [done|].
  apply orb_false_iff in E1 as [_ Hh].
  destruct (negb (StrOps.contains EQUALS (Str.strip line))) eqn:E2; [done|].
  apply negb_false_iff, contains_elem in E2.
  destruct (partition_split _ _ E2) as (a & b & Hs & Ha & ->).
  intros [= <- <-]. exists a, b. repeat split; try done.
  destruct (_ || _); auto.
Qed.

(** The names a file can set. *)
Lemma parse_line_key line key value :
  parse_line line = Some (key, value) ->
  key <> [] ->
  stripped key /\ (EQUALS ∉ key) /\ Str.startswith [HASH] key = false.
Proof.
  intros (a & b & Hs & Ha & Hh & -> & _)%parse_line_inv Hne.
  split; [apply strip_strip|].
  destruct (strip_split a) as (w1 & w2 & Hw & H1 & H2).
  split.
  - intros Hin. apply Ha. rewrite Hw. rewrite !elem_of_app. auto.
  - destruct (strip_ends line) as [Hl _]. rewrite Hs in Hl.
    destruct (Str.strip a) as [|c k] eqn:Ek; [done|].
    destruct w1 as [|x w1].
    + rewrite Hw in Hs. simpl in Hs. rewrite Hs in Hh. done.
    + rewrite Hw in Hl. simpl in Hl. inversion H1; congruence.
Qed.

(** The text of a name and of a value comes from the stripped line. *)
Lemma slice_1_m1_elem (s : pystr) c : c ∈ Str.slice_1_m1 s -> c ∈ s.
Proof.
  unfold Str.slice_1_m1. destruct s as [|x s]; [done|]. simpl tail.
  intros H. apply elem_of_cons. right.
  destruct s as [|y s] using rev_ind; [done|].
  rewrite removelast_last in H. apply elem_of_app. by left.
Qed.

Lemma strip_elem s c : c ∈ Str.strip s -> c ∈ s.
Proof.
  destruct (strip_split s) as (w1 & w2 & Hs & _). intros H.
  rewrite Hs, !elem_of_app. auto.
Qed.

Lemma parse_line_elem line key value c :
  parse_line line = Some (key, value) ->
  c ∈ key \/ c ∈ value -> c ∈ Str.strip line.
Proof.
  intros (a & b & Hs & _ & _ & -> & Hv)%parse_line_inv Hc.
  rewrite Hs, elem_of_app, elem_of_cons.
  destruct Hc as [Hc|Hc]; [left; by apply strip_elem|].
  right. right. destruct Hv as [->| ->]; [by apply strip_elem|].
  by apply strip_elem, slice_1_m1_elem.
Qed.

(** A line of a file, stripped, has nothing of the line break. *)
Lemma strip_line_body body c :
  c ∈ Str.strip (body ++ [NL]) -> c ∈ body.
Proof.
  destruct (strip_split (body ++ [NL])) as (w1 & w2 & Hs & _ & _).
  destruct (strip_ends (body ++ [NL])) as [_ Hlast].
  intros Hc. destruct w2 as [|y w2 _] using rev_ind.
  - rewrite app_nil_r in Hs.
    destruct (Str.strip (body ++ [NL])) as [|x t _] using rev_ind;
      [by apply elem_of_nil in Hc|].
    rewrite rev_app_distr in Hlast. simpl in Hlast.
    rewrite app_assoc in Hs. apply app_inj_tail in Hs as [_ <-]. done.
  - rewrite !app_assoc in Hs. apply app_inj_tail in Hs as [-> _].
    rewrite !elem_of_app. auto.
Qed.

Lemma isspace_not_equals c : Str.isspace c = true -> c <> EQUALS.
Proof. by intros H ->. Qed.

Lemma spaces_no_equals w :
  Forall (fun c => Str.isspace c = true) w -> EQUALS ∉ w.
Proof.
  induction 1 as [|c w Hc _ IH]; [apply not_elem_of_nil|].
  apply not_elem_of_cons. split; [|done].
  intros E. by apply (isspace_not_equals c).
Qed.

Lemma strip_core w0 core w3 c m d :
  core = c :: m ++ [d] ->
  Str.isspace c = false -> Str.isspace d = false ->
  Forall (fun c => Str.isspace c = true) w0 ->
  Forall (fun c => Str.isspace c = true) w3 ->
  Str.strip (w0 ++ core ++ w3) = core.
Proof.
  intros Hcore Hc Hd H0 H3.
  apply strip_pad; [by eapply strip_id|by subst|done|done].
Qed.

(** The stripped line of [name = text] between optional whitespace, and
    what follows its equals sign. *)
Lemma strip_assignment w0 key w1 w2 text w3 :
  key <> [] -> stripped key -> stripped text ->
  Forall (fun c => Str.isspace c = true) w0 ->
  Forall (fun c => Str.isspace c = true) w1 ->
  Forall (fun c => Str.isspace c = true) w2 ->
  Forall (fun c => Str.isspace c = true) w3 ->
  exists t,
    Str.strip (w0 ++ key ++ w1 ++ EQUALS :: w2 ++ text ++ w3)
    = (key ++ w1) ++ EQUALS :: t
    /\ Str.strip t = text.
Proof.
  intros Hne Hk Ht H0 H1 H2 H3.
  destruct (stripped_ends key Hk) as [Hk1 _].
  destruct (stripped_ends text Ht) as [_ Ht2].
  destruct key as [|c key]; [done|].
  destruct text as [|d text _] using rev_ind.
  - exists []. split; [|done].
    replace (w0 ++ (c :: key) ++ w1 ++ EQUALS :: w2 ++ [] ++ w3)
      with (w0 ++ (((c :: key) ++ w1) ++ [EQUALS]) ++ (w2 ++ w3))
      by (by list_simplifier).
    rewrite (strip_core _ _ _ c (key ++ w1) EQUALS);
      [done|by list_simplifier|done|done|done|by apply Forall_app].
  - exists (w2 ++ text ++ [d]). rewrite rev_app_distr in Ht2. simpl in Ht2. split.
    + replace (w0 ++ (c :: key) ++ w1 ++ EQUALS :: w2 ++ (text ++ [d]) ++ w3)
        with (w0 ++ (((c :: key) ++ w1) ++ EQUALS :: w2 ++ text ++ [d]) ++ w3)
        by (by list_simplifier).
      rewrite (strip_core _ _ _ c (key ++ w1 ++ EQUALS :: w2 ++ text) d);
        [done|by list_simplifier|done|done|done|done].
    + rewrite <- (app_nil_r (w2 ++ text ++ [d])), <- app_assoc.
      apply strip_pad; [done|by destruct text|done|done].
Qed.

(** A line [name = text], with optional whitespace around the name and
    around the text, gives the name and the text, without the quotes when
    the text starts and ends with the same quote character. *)
Lemma parse_line_assignment w0 key w1 w2 text w3 :
  key <> [] -> stripped key -> EQUALS ∉ key ->
  Str.startswith [HASH] key = false ->
  stripped text ->
  Forall (fun c => Str.isspace c = true) w0 ->
  Forall (fun c => Str.isspace c = true) w1 ->
  Forall (fun c => Str.isspace c = true) w2 ->
  Forall (fun c => Str.isspace c = true) w3 ->
  parse_line (w0 ++ key ++ w1 ++ EQUALS :: w2 ++ text ++ w3)
  = Some (key,
          if (Str.startswith [QUOTE] text && StrOps.endswith [QUOTE] text)
             || (Str.startswith [APOSTROPHE] text
                 && StrOps.endswith [APOSTROPHE] text)
          then Str.slice_1_m1 text
          else text).
Proof.
  intros Hne Hk Heq Hh Ht H0 H1 H2 H3.
  destruct (strip_assignment w0 key w1 w2 text w3) as (t & Hline & Hstrip);
    try done.
  unfold parse_line. cbn zeta. rewrite Hline.
  destruct key as [|c key]; [done|].
  replace (Str.startswith [HASH] (((c :: key) ++ w1) ++ EQUALS :: t))
    with (Str.startswith [HASH] (c :: key)) by done.
  rewrite Hh. cbn [StrOps.truthy app negb orb].
  assert (Hin : StrOps.contains EQUALS (c :: (key ++ w1) ++ EQUALS :: t) = true).
  { apply contains_elem. rewrite elem_of_cons, elem_of_app, elem_of_cons. auto. }
  rewrite Hin. cbn [negb].
  change (c :: (key ++ w1) ++ EQUALS :: t) with (((c :: key) ++ w1) ++ EQUALS :: t).
  rewrite partition_app.
  2:{ apply not_elem_of_app. split; [done|by apply spaces_no_equals]. }
  rewrite Hstrip. by rewrite strip_pad_r.
Qed.

(** X6: a line [name = text], with optional whitespace before the name,
    around the equals sign and after the text, gives the name and the
    text as they are.  The name has to be what a name can be (see
    [load_env_names]); the text is any text without whitespace at either
    end that does not stand between two quotes of the same kind, and may
    be empty. *)
Theorem parse_line_plain w0 key w1 w2 text w3 :
  key <> [] -> stripped key -> EQUALS ∉ key ->
  Str.startswith [HASH] key = false ->
  stripped text ->
  (Str.startswith [QUOTE] text && StrOps.endswith [QUOTE] text)
  || (Str.startswith [APOSTROPHE] text && StrOps.endswith [APOSTROPHE] text)
  = false ->
  Forall (fun c => Str.isspace c = true) w0 ->
  Forall (fun c => Str.isspace c = true) w1 ->
  Forall (fun c => Str.isspace c = true) w2 ->
  Forall (fun c => Str.isspace c = true) w3 ->
  parse_line (w0 ++ key ++ w1 ++ EQUALS :: w2 ++ text ++ w3) = Some (key, text).
Proof.
  intros Hne Hk Heq Hh Ht Hq H0 H1 H2 H3.
  rewrite parse_line_assignment by done. by rewrite Hq.
Qed.

(** X7: quotes keep what is between them.  A line whose value stands
    between two double quotes, or two apostrophes, gives the text between
    them as it is, with its whitespace, quotes and equals signs. *)
Theorem parse_line_quoted w0 key w1 w2 q value w3 :
  key <> [] -> stripped key -> EQUALS ∉ key ->
  Str.startswith [HASH] key = false ->
  q = QUOTE \/ q = APOSTROPHE ->
  Forall (fun c => Str.isspace c = true) w0 ->
  Forall (fun c => Str.isspace c = true) w1 ->
  Forall (fun c => Str.isspace c = true) w2 ->
  Forall (fun c => Str.isspace c = true) w3 ->
  parse_line (w0 ++ key ++ w1 ++ EQUALS :: w2 ++ (q :: value ++ [q]) ++ w3)
  = Some (key, value).
Proof.
  intros Hne Hk Heq Hh Hq H0 H1 H2 H3.
  assert (Ht : stripped (q :: value ++ [q])).
  { eapply strip_id; [done|by destruct Hq as [-> | ->]..]. }
  rewrite parse_line_assignment by done.
  assert (Hend : StrOps.endswith [q] (q :: value ++ [q]) = true).
  { apply endswith_one. by exists (q :: value). }
  assert (Hslice : Str.slice_1_m1 (q :: value ++ [q]) = value).
  { unfold Str.slice_1_m1. simpl tail. apply removelast_last. }
  destruct Hq as [-> | ->].
  - rewrite Hend. replace (Str.startswith [QUOTE] (QUOTE :: value ++ [QUOTE]))
      with true by done. cbn [andb orb]. by rewrite Hslice.
  - rewrite Hend.
    replace (Str.startswith [QUOTE] (APOSTROPHE :: value ++ [APOSTROPHE]))
      with false by done.
    replace (Str.startswith [APOSTROPHE] (APOSTROPHE :: value ++ [APOSTROPHE]))
      with true by done.
    cbn [andb orb]. by rewrite Hslice.
Qed.

End ParseLine.

Section FileLines.

(** The lines of a file: each is a text without line break, followed by a
    newline, the last one perhaps not. *)
Lemma file_lines_body text :
  Forall (fun line => exists body,
            (line = body ++ [NL] \/ line = body) /\ (NL ∉ body) /\ (CR ∉ body))
    (file_lines text).
Proof.
  induction text as [text IH] using (induction_ltof1 _ (@length N)).
  unfold ltof in IH. destruct text as [|c r]; [constructor|]. simpl.
  assert (Hnil : exists body : pystr,
            ([NL] = body ++ [NL] \/ [NL] = body) /\ (NL ∉ body) /\ (CR ∉ body)).
  { exists []. split; [by left|]. split; apply not_elem_of_nil. }
  destruct (N.eqb_spec c NL) as [->|Hnl].
  { constructor; [done|]. apply IH. simpl. lia. }
  destruct (N.eqb_spec c CR) as [->|Hcr].
  { destruct r as [|c2 r2]; [by repeat constructor|].
    destruct (c2 =? NL); (constructor; [done|]); apply IH; simpl; lia. }
  pose proof (IH r ltac:(simpl; lia)) as Hr.
  destruct (file_lines r) as [|l ls].
  { repeat constructor. exists [c]. split; [by right|].
    split; apply not_elem_of_cons; (split; [congruence|apply not_elem_of_nil]). }
  inversion Hr as [|? ? (body & Hl & H1 & H2) Hls]; subst.
  constructor; [|done]. exists (c :: body). split.
  - destruct Hl as [->| ->]; [by left|by right].
  - split; apply not_elem_of_cons; (split; [congruence|done]).
Qed.

Lemma file_line_break text line key value :
  line ∈ file_lines text ->
  parse_line line = Some (key, value) ->
  (NL ∉ key) /\ (CR ∉ key) /\ (NL ∉ value) /\ (CR ∉ value).
Proof.
  intros Hin Hp.
  pose proof (file_lines_body text) as Hall.
  rewrite Forall_forall in Hall.
  destruct (Hall line Hin) as (body & Hl & Hnl & Hcr).
  assert (Hsub : forall c, c ∈ key \/ c ∈ value -> c ∈ body).
  { intros c Hc. pose proof (parse_line_elem _ _ _ _ Hp Hc) as Hs.
    destruct Hl as [->| ->]; [by apply strip_line_body|by apply strip_elem]. }
  repeat split; intros H; [apply Hnl|apply Hcr|apply Hnl|apply Hcr];
    apply Hsub; auto.
Qed.

End FileLines.

Section LoadEnv.
Variable fsencodable : N -> bool.

(** One step of the loop, by what the line does. *)
Lemma load_lines_skip line rest environ loaded :
  (forall k v, parse_line line = Some (k, v) ->
     k = [] \/ v = [] \/ (fsencodes fsencodable k = true /\ is_Some (environ !! k))) ->
  load_lines fsencodable (line :: rest) environ loaded = load_lines fsencodable rest environ loaded.
Proof.
  intros H. simpl.
  destruct (parse_line line) as [[k v]|]; [|done].
  destruct (H k v eq_refl) as [->|[->|[Hk [x Hx]]]]; [done|by destruct k|].
  destruct (StrOps.truthy k && StrOps.truthy v); [|done].
  by rewrite Hk, Hx.
Qed.

(** The loop never changes a variable that is set, whether it returns or
    raises. *)
Lemma load_lines_subseteq lines : forall environ loaded,
  environ ⊆ (load_lines fsencodable lines environ loaded).1.
Proof.
  induction lines as [|line rest IH]; intros environ loaded; simpl; [done|].
  destruct (parse_line line) as [[k v]|]; [|apply IH].
  destruct (StrOps.truthy k && StrOps.truthy v); [|apply IH].
  destruct (negb (fsencodes fsencodable k)); [done|].
  destruct (environ !! k) eqn:Ek; [apply IH|].
  destruct (negb (fsencodes fsencodable v)); [done|].
  destruct (_ || _); [done|].
  etrans; [|apply IH]. by apply insert_subseteq.
Qed.

(** When the loop returns, a name has the value it had, or else the value
    the lines give it; the same for the dict returned, on the names that
    were not set. *)
Lemma load_lines_lookup lines : forall environ loaded environ' loaded',
  load_lines fsencodable lines environ loaded = (environ', inl loaded') ->
  forall key,
    environ' !! key
    = match environ !! key with
      | Some v => Some v
      | None => first_value lines key
      end
    /\ loaded' !! key
       = match environ !! key, first_value lines key with
         | None, Some v => Some v
         | _, _ => loaded !! key
         end.
Proof.
  induction lines as [|line rest IH]; intros environ loaded environ' loaded' H key.
  { simpl in H. injection H as <- <-. simpl. by destruct (environ !! key). }
  simpl in H |- *.
  destruct (parse_line line) as [[k v]|]; [|by apply IH].
  destruct (StrOps.truthy k) eqn:Hk; simpl in H |- *.
  2:{ rewrite andb_false_r. simpl. by apply IH. }
  destruct (StrOps.truthy v) eqn:Hv; simpl in H |- *.
  2:{ rewrite andb_false_r. by apply IH. }
  rewrite !andb_true_r.
  destruct (negb (fsencodes fsencodable k)); [done|].
  destruct (environ !! k) eqn:Ek.
  { destruct (IH _ _ _ _ H key) as [H1 H2].
    case_bool_decide as Hkey; [subst key|done]. by rewrite Ek in *. }
  destruct (negb (fsencodes fsencodable v)); [done|].
  destruct (_ || _); [done|].
  destruct (IH _ _ _ _ H key) as [H1 H2].
  rewrite !lookup_insert in H1, H2.
  case_bool_decide as Hkey.
  - subst key. rewrite decide_True in H1, H2 by done. rewrite Ek. split; [done|].
    by rewrite H2, lookup_insert_eq.
  - rewrite decide_False in H1, H2 by done. simpl.
    split; [done|]. rewrite H2.
    destruct (environ !! key); [by rewrite lookup_insert_ne|].
    destruct (first_value rest key); [done|by rewrite lookup_insert_ne].
Qed.

(** X1: [load_env] never changes a variable that is set: every name of
    [os.environ] has afterwards the value it had, whatever the file
    holds, and also when the call raises. *)
Theorem load_env_keeps_environ file environ :
  environ ⊆ (load_env fsencodable file environ).1.
Proof.
  unfold load_env. destruct file as [text|]; [|done].
  apply load_lines_subseteq.
Qed.

(** X2: when [load_env] returns, the dict returned holds the variables it
    has set and no other: [os.environ] is what it was plus that dict, and
    no name of the dict was set before. *)
Theorem load_env_union file environ environ' loaded :
  load_env fsencodable file environ = (environ', inl loaded) ->
  environ' = loaded ∪ environ /\ loaded ##ₘ environ.
Proof.
  unfold load_env. destruct file as [text|].
  2:{ intros [= <- <-]. split; [by rewrite map_empty_union|apply map_disjoint_empty_l]. }
  intros H. pose proof (load_lines_lookup _ _ _ _ _ H) as Hl. split.
  - apply map_eq. intros key. destruct (Hl key) as [-> H2].
    rewrite lookup_union, H2, lookup_empty.
    destruct (environ !! key); [done|]. by destruct (first_value _ key).
  - apply map_disjoint_alt. intros key. destruct (Hl key) as [_ ->].
    rewrite lookup_empty. destruct (environ !! key); auto.
Qed.

(** X4: the first definition wins.  After [load_env] has returned,
    [get_env] gives for a name the value the environment had before, or
    else the value of the first line of the file that has this name and a
    value that is not empty, or else the default. *)
Theorem load_env_first_wins text environ environ' loaded :
  load_env fsencodable (Some text) environ = (environ', inl loaded) ->
  forall key dflt,
    get_env environ' key dflt
    = match environ !! key with
      | Some v => v
      | None => default dflt (first_value (file_lines text) key)
      end.
Proof.
  unfold load_env. intros H key dflt.
  destruct (load_lines_lookup _ _ _ _ _ H key) as [Hk _].
  unfold get_env. rewrite Hk. by destruct (environ !! key).
Qed.

(** What holds of the name and the value of every line that sets
    something holds of the dict returned. *)
Lemma load_lines_Forall (P : pystr -> pystr -> Prop) lines :
  Forall (fun line => forall k v,
            parse_line line = Some (k, v) -> k <> [] -> v <> [] ->
            NUL ∉ k -> NUL ∉ v -> P k v) lines ->
  forall environ loaded environ' loaded',
    map_Forall P loaded ->
    load_lines fsencodable lines environ loaded = (environ', inl loaded') ->
    map_Forall P loaded'.
Proof.
  induction 1 as [|line rest Hl _ IH]; intros environ loaded environ' loaded' HP H;
    simpl in H; [by injection H as _ <-|].
  destruct (parse_line line) as [[k v]|] eqn:Hp; [|by eapply IH].
  destruct (StrOps.truthy k) eqn:Tk; cbn [andb] in H; [|by eapply IH].
  destruct (StrOps.truthy v) eqn:Tv; [|by eapply IH].
  destruct (negb (fsencodes fsencodable k)); [done|].
  destruct (environ !! k); [by eapply IH|].
  destruct (negb (fsencodes fsencodable v)); [done|].
  destruct (StrOps.contains NUL k) eqn:Nk; [done|].
  destruct (StrOps.contains NUL v) eqn:Nv; [done|]. cbn [orb] in H.
  eapply IH; [|exact H]. apply map_Forall_insert_2; [|done].
  apply Hl; [done|by apply truthy_ne|by apply truthy_ne
            |by apply contains_false|by apply contains_false].
Qed.

(** X3: the names and values [load_env] returns.  A name is not empty,
    has no whitespace at either end, no equals sign, and does not start
    with a hash; a value is not empty; neither holds a null character or
    a line break. *)
Theorem load_env_names file environ environ' loaded :
  load_env fsencodable file environ = (environ', inl loaded) ->
  map_Forall
    (fun key value =>
       key <> [] /\ value <> []
       /\ stripped key /\ (EQUALS ∉ key) /\ Str.startswith [HASH] key = false
       /\ (NUL ∉ key) /\ (NUL ∉ value)
       /\ (NL ∉ key) /\ (CR ∉ key) /\ (NL ∉ value) /\ (CR ∉ value))
    loaded.
Proof.
  unfold load_env. destruct file as [text|].
  2:{ intros [= _ <-]. apply map_Forall_empty. }
  apply load_lines_Forall; [|apply map_Forall_empty].
  apply Forall_forall. intros line Hin k v Hp Hk Hv Nk Nv.
  destruct (parse_line_key _ _ _ Hp Hk) as (H1 & H2 & H3).
  destruct (file_line_break _ _ _ _ Hin Hp) as (H4 & H5 & H6 & H7).
  done.
Qed.

(** Every line that could set something has its name in the environment
    once the loop has returned. *)
Lemma load_lines_covered lines : forall environ loaded environ' loaded',
  load_lines fsencodable lines environ loaded = (environ', inl loaded') ->
  Forall (fun line => forall k v, parse_line line = Some (k, v) ->
            k = [] \/ v = []
            \/ (fsencodes fsencodable k = true /\ is_Some (environ' !! k))) lines.
Proof.
  induction lines as [|line rest IH]; intros environ loaded environ' loaded' H;
    [constructor|].
  pose proof (load_lines_subseteq (line :: rest) environ loaded) as Hsub.
  rewrite H in Hsub. simpl in Hsub.
  simpl in H.
  destruct (parse_line line) as [[k v]|] eqn:Hp.
  2:{ constructor; [intros ? ?; by rewrite Hp|by eapply IH]. }
  destruct (StrOps.truthy k) eqn:Tk; cbn [andb] in H.
  2:{ constructor; [|by eapply IH].
      intros ? ?; rewrite Hp; intros [= <- <-]. left. by destruct k. }
  destruct (StrOps.truthy v) eqn:Tv.
  2:{ constructor; [|by eapply IH].
      intros ? ?; rewrite Hp; intros [= <- <-]. right. left. by destruct v. }
  destruct (fsencodes fsencodable k) eqn:Hk; cbn [negb] in H; [|done].
  destruct (environ !! k) as [x|] eqn:Ek.
  { constructor; [|by eapply IH]. intros ? ?; rewrite Hp; intros [= <- <-]. right. right.
    split; [done|]. exists x. by eapply lookup_weaken. }
  destruct (negb (fsencodes fsencodable v)); [done|].
  destruct (_ || _); [done|].
  constructor; [|by eapply IH]. intros ? ?; rewrite Hp; intros [= <- <-]. right. right.
  split; [done|]. exists v.
  pose proof (load_lines_subseteq rest (<[k := v]> environ)
                (<[k := v]> loaded)) as Hs.
  rewrite H in Hs. simpl in Hs.
  eapply lookup_weaken; [|exact Hs]. apply lookup_insert_eq.
Qed.

Lemma load_lines_nothing lines environ loaded :
  Forall (fun line => forall k v, parse_line line = Some (k, v) ->
            k = [] \/ v = []
            \/ (fsencodes fsencodable k = true /\ is_Some (environ !! k))) lines ->
  load_lines fsencodable lines environ loaded = (environ, inl loaded).
Proof.
  induction 1 as [|line rest Hl _ IH]; [done|].
  by rewrite load_lines_skip.
Qed.

(** X5: loading the same file a second time sets nothing: [os.environ]
    stays as the first call left it and the dict returned is empty. *)
Theorem load_env_twice file environ environ' loaded :
  load_env fsencodable file environ = (environ', inl loaded) ->
  load_env fsencodable file environ' = (environ', inl ∅).
Proof.
  unfold load_env. destruct file as [text|]; [|by intros [= <- _]].
  intros H. apply load_lines_nothing. by eapply load_lines_covered.
Qed.

End LoadEnv.

(** ** Closed instances for the environment file *)

Lemma load_env_union_witness :
  load_env EnvSample.fsencodable (Some EnvSample.dotenv) EnvSample.environ
  = (EnvSample.environ', inl EnvSample.loaded)
  /\ EnvSample.environ' = EnvSample.loaded ∪ EnvSample.environ
  /\ EnvSample.loaded ##ₘ EnvSample.environ.
Proof.
  assert (H : load_env EnvSample.fsencodable (Some EnvSample.dotenv)
                EnvSample.environ
              = (EnvSample.environ', inl EnvSample.loaded))
    by (vm_compute; reflexivity).
  split; [exact H|].
  exact (load_env_union EnvSample.fsencodable _ _ _ _ H).
Defined.

Lemma load_env_names_witness :
  load_env EnvSample.fsencodable (Some EnvSample.dotenv) EnvSample.environ
  = (EnvSample.environ', inl EnvSample.loaded)
  /\ map_Forall
       (fun key value =>
          key <> [] /\ value <> []
          /\ stripped key /\ (EQUALS ∉ key) /\ Str.startswith [HASH] key = false
          /\ (NUL ∉ key) /\ (NUL ∉ value)
          /\ (NL ∉ key) /\ (CR ∉ key) /\ (NL ∉ value) /\ (CR ∉ value))
       EnvSample.loaded.
Proof.
  assert (H : load_env EnvSample.fsencodable (Some EnvSample.dotenv)
                EnvSample.environ
              = (EnvSample.environ', inl EnvSample.loaded))
    by (vm_compute; reflexivity).
  split; [exact H|].
  exact (load_env_names EnvSample.fsencodable _ _ _ _ H).
Defined.

Lemma load_env_first_wins_witness :
  load_env EnvSample.fsencodable (Some EnvSample.dotenv) EnvSample.environ
  = (EnvSample.environ', inl EnvSample.loaded)
  /\ (forall key dflt,
        get_env EnvSample.environ' key dflt
        = match EnvSample.environ !! key with
          | Some v => v
          | None =>
              default dflt (first_value (file_lines EnvSample.dotenv) key)
          end)
  /\ first_value (file_lines EnvSample.dotenv) (py "MODEL_NAME")
     = Some (py "gpt-4o")
  /\ first_value (file_lines EnvSample.dotenv) (py "PORT") = None.
Proof.
  assert (H : load_env EnvSample.fsencodable (Some EnvSample.dotenv)
                EnvSample.environ
              = (EnvSample.environ', inl EnvSample.loaded))
    by (vm_compute; reflexivity).
  split; [exact H|].
  split; [exact (load_env_first_wins EnvSample.fsencodable _ _ _ _ H)|].
  split; vm_compute; reflexivity.
Defined.

Lemma load_env_twice_witness :
  load_env EnvSample.fsencodable (Some EnvSample.dotenv) EnvSample.environ
  = (EnvSample.environ', inl EnvSample.loaded)
  /\ load_env EnvSample.fsencodable (Some EnvSample.dotenv) EnvSample.environ'
     = (EnvSample.environ', inl ∅).
Proof.
  assert (H : load_env EnvSample.fsencodable (Some EnvSample.dotenv)
                EnvSample.environ
              = (EnvSample.environ', inl EnvSample.loaded))
    by (vm_compute; reflexivity).
  split; [exact H|].
  exact (load_env_twice EnvSample.fsencodable _ _ _ _ H).
Defined.

Lemma parse_line_plain_witness :
  parse_line (py "  MODEL_NAME = gpt-4o mini  " ++ [NL])
  = Some (py "MODEL_NAME", py "gpt-4o mini").
Proof.
  apply (parse_line_plain (py "  ") (py "MODEL_NAME") (py " ") (py " ")
           (py "gpt-4o mini") (py "  " ++ [NL])).
  - done.
  - reflexivity.
  - apply not_elem_of_forallb. reflexivity.
  - reflexivity.
  - reflexivity.
  - reflexivity.
  - repeat constructor.
  - repeat constructor.
  - repeat constructor.
  - repeat constructor.
Defined.

Lemma parse_line_quoted_witness :
  parse_line (pyq "GREETING='  a = b  '" ++ [NL])
  = Some (py "GREETING", py "  a = b  ").
Proof.
  apply (parse_line_quoted [] (py "GREETING") [] [] QUOTE (py "  a = b  ") [NL]).
  - done.
  - reflexivity.
  - apply not_elem_of_forallb. reflexivity.
  - reflexivity.
  - by left.
  - constructor.
  - constructor.
  - constructor.
  - repeat constructor.
Defined.

(** ** The provider and the model *)

Section InitFacts.

Lemma truthy_get_env environ key :
  StrOps.truthy (get_env environ key []) = true <-> is_set environ key.
Proof.
  unfold get_env, is_set. destruct (environ !! key) as [v|]; simpl.
  - rewrite truthy_ne. split; [eauto|]. by intros (? & [= <-] & ?).
  - split; [done|]. by intros (? & ? & _).
Qed.

Lemma falsy_get_env environ key :
  StrOps.truthy (get_env environ key []) = false <-> ~ is_set environ key.
Proof.
  rewrite <- truthy_get_env. by destruct (StrOps.truthy _).
Qed.

(** X8: the provider, by the credentials of the environment, where a
    variable counts when it is set and not empty.  Azure needs its key
    and its endpoint and then wins over an OpenAI key; an OpenAI key
    comes next; Ollama is what is left. *)
Theorem detect_provider_priority environ :
  let azure_set :=
    is_set environ (py "AZURE_OPENAI_API_KEY")
    /\ is_set environ (py "AZURE_OPENAI_ENDPOINT") in
  let openai_set := is_set environ (py "OPENAI_API_KEY") in
  (_detect_provider environ = azure <-> azure_set)
  /\ (_detect_provider environ = openai <-> ~ azure_set /\ openai_set)
  /\ (_detect_provider environ = ollama <-> ~ azure_set /\ ~ openai_set).
Proof.
  cbn zeta. unfold _detect_provider. cbn zeta.
  rewrite <- !truthy_get_env.
  destruct (StrOps.truthy (get_env environ (py "AZURE_OPENAI_API_KEY") []));
    destruct (StrOps.truthy (get_env environ (py "AZURE_OPENAI_ENDPOINT") []));
    destruct (StrOps.truthy (get_env environ (py "OPENAI_API_KEY") []));
    simpl; intuition congruence.
Qed.

(** X9: the model name of a new client.  For Azure it is the deployment
    name, else [MODEL_NAME], else [llama3.2]; for OpenAI [MODEL_NAME],
    else [gpt-4o-mini]; for Ollama [MODEL_NAME], else [llama3.2].  "Else"
    is for a variable that is not set: one that is set and empty gives an
    empty model name. *)
Theorem init_model environ :
  self_provider (__init__ environ).1 = _detect_provider environ
  /\ self_model (__init__ environ).1
     = match _detect_provider environ with
       | azure =>
           match environ !! py "AZURE_OPENAI_DEPLOYMENT",
                 environ !! py "MODEL_NAME" with
           | Some deployment, _ => deployment
           | None, Some name => name
           | None, None => py "llama3.2"
           end
       | openai => default (py "gpt-4o-mini") (environ !! py "MODEL_NAME")
       | ollama => default (py "llama3.2") (environ !! py "MODEL_NAME")
       end.
Proof.
  unfold __init__, _create_client, get_env. cbn zeta.
  destruct (_detect_provider environ); simpl; split; try done.
Qed.

Section Masking.
Variable fsencodable : N -> bool.

(** X10: credentials that are set and empty in the process environment
    hide those of the file.  With an empty [OPENAI_API_KEY] and an empty
    [AZURE_OPENAI_API_KEY] before [load_env], the provider afterwards is
    Ollama whatever the file defines. *)
Theorem load_env_empty_masks file environ :
  environ !! py "OPENAI_API_KEY" = Some [] ->
  environ !! py "AZURE_OPENAI_API_KEY" = Some [] ->
  _detect_provider (load_env fsencodable file environ).1 = ollama.
Proof.
  intros Ho Ha.
  assert (Hsub : environ ⊆ (load_env fsencodable file environ).1).
  { unfold load_env. destruct file as [text|]; [|done].
    apply load_lines_subseteq. }
  unfold _detect_provider, get_env. cbn zeta.
  by rewrite (lookup_weaken _ _ _ _ Ho Hsub), (lookup_weaken _ _ _ _ Ha Hsub).
Qed.

End Masking.
End InitFacts.

Lemma load_env_empty_masks_witness :
  let environ : gmap pystr pystr :=
    {[ py "OPENAI_API_KEY" := []; py "AZURE_OPENAI_API_KEY" := [] ]} in
  environ !! py "OPENAI_API_KEY" = Some []
  /\ environ !! py "AZURE_OPENAI_API_KEY" = Some []
  /\ first_value (file_lines EnvSample.dotenv) (py "OPENAI_API_KEY")
     = Some (py "sk-test")
  /\ _detect_provider
       (load_env EnvSample.fsencodable (Some EnvSample.dotenv) environ).1
     = ollama.
Proof.
  cbn zeta.
  split; [vm_compute; reflexivity|]. split; [vm_compute; reflexivity|].
  split; [vm_compute; reflexivity|].
  apply (load_env_empty_masks EnvSample.fsencodable);
    vm_compute; reflexivity.
Defined.

(** ** The sanitizer on its own *)

Section CleanFacts.
Import Clean.

Lemma remove_ctl_free s : Forall (fun c => is_ctl c = false) (remove_ctl s).
Proof.
  unfold remove_ctl. induction s as [|c s IH]; simpl; [constructor|].
  destruct (is_ctl c) eqn:Hc; simpl; [done|]. by constructor.
Qed.

Lemma remove_ctl_fix s :
  Forall (fun c => is_ctl c = false) s -> remove_ctl s = s.
Proof.
  unfold remove_ctl. induction 1 as [|c s Hc _ IH]; simpl; [done|].
  by rewrite Hc, IH.
Qed.

Lemma scan_from_free s : forall ins esc,
  Forall (fun c => is_ctl c = false) s ->
  Forall (fun c => is_ctl c = false) (scan_from ins esc s).
Proof.
  induction s as [|c s IH]; intros ins esc Hs; simpl; [constructor|].
  inversion Hs as [|? ? Hc Hs']; subst.
  destruct esc; [constructor; auto|].
  destruct (c =? BACKSLASH); [constructor; auto|].
  destruct (c =? QUOTE); [constructor; auto|].
  destruct (ins && (c =? NL)); [repeat (constructor; auto)|].
  destruct (ins && (c =? TAB)); [repeat (constructor; auto)|].
  constructor; auto.
Qed.

(** The scan finds nothing to escape in what it has written. *)
Lemma scan_from_scan_from s : forall ins esc,
  scan_from ins esc (scan_from ins esc s) = scan_from ins esc s.
Proof.
  induction s as [|c s IH]; intros ins esc; simpl; [done|].
  destruct esc; simpl; [by rewrite IH|].
  destruct (c =? BACKSLASH) eqn:Hb; simpl; [by rewrite Hb, IH|].
  destruct (c =? QUOTE) eqn:Hq; simpl; [by rewrite Hb, Hq, IH|].
  destruct (ins && (c =? NL)) eqn:Hn; simpl; [by rewrite IH|].
  destruct (ins && (c =? TAB)) eqn:Ht; simpl; [by rewrite IH|].
  by rewrite Hb, Hq, Hn, Ht, IH.
Qed.

(** X11: [_clean_json_string] is idempotent: cleaning a cleaned text
    changes nothing. *)
Theorem clean_json_string_idempotent s :
  _clean_json_string (_clean_json_string s) = _clean_json_string s.
Proof.
  rewrite !clean_json_string_eq.
  rewrite (remove_ctl_fix (scan_from false false (remove_ctl s))).
  - apply scan_from_scan_from.
  - apply scan_from_free, remove_ctl_free.
Qed.

Lemma scan_from_length_le s : forall ins esc,
  (length (scan_from ins esc s) <= 2 * length s)%nat.
Proof.
  induction s as [|c s IH]; intros ins esc; simpl; [lia|].
  destruct esc; simpl; [specialize (IH ins false); lia|].
  destruct (c =? BACKSLASH); simpl; [specialize (IH ins true); lia|].
  destruct (c =? QUOTE); simpl; [specialize (IH (negb ins) false); lia|].
  destruct (ins && (c =? NL)); simpl; [specialize (IH ins false); lia|].
  destruct (ins && (c =? TAB)); simpl; specialize (IH ins false); lia.
Qed.

(** X12: the text [_clean_json_string] returns holds none of the control
    characters of its first step, and it is not shorter than the text
    without them and at most twice as long. *)
Theorem clean_json_string_free s :
  Forall (fun c => is_ctl c = false) (_clean_json_string s)
  /\ (length (remove_ctl s) <= length (_clean_json_string s)
      <= 2 * length (remove_ctl s))%nat.
Proof.
  rewrite clean_json_string_eq. split.
  - apply scan_from_free, remove_ctl_free.
  - split; [apply scan_from_length|apply scan_from_length_le].
Qed.

Lemma remove_ctl_elem c s : c ∈ remove_ctl s -> c ∈ s.
Proof.
  unfold remove_ctl. induction s as [|x s IH]; simpl; [done|].
  destruct (is_ctl x); simpl; rewrite !elem_of_cons; intuition.
Qed.

Lemma scan_outside s : forall esc,
  QUOTE ∉ s -> scan_from false esc s = s.
Proof.
  induction s as [|c s IH]; intros esc Hq; simpl; [done|].
  apply not_elem_of_cons in Hq as [Hc Hq].
  destruct esc; [by rewrite IH|].
  destruct (c =? BACKSLASH); [by rewrite IH|].
  destruct (N.eqb_spec c QUOTE); [done|]. simpl. by rewrite IH.
Qed.

(** X13: outside string literals nothing is escaped.  A text without a
    double quote comes back as it is, newlines and tabs included, but for
    the control characters the first step removes. *)
Theorem clean_json_string_no_quote s :
  QUOTE ∉ s -> _clean_json_string s = remove_ctl s.
Proof.
  intros Hq. rewrite clean_json_string_eq. apply scan_outside.
  intros Hin. by apply Hq, remove_ctl_elem.
Qed.

End CleanFacts.

Section CleanJson.
Import Json.



End CleanJson.

Lemma clean_json_string_no_quote_witness :
  let s := py "line 1" ++ [NL; TAB; 7] ++ py "line 2" in
  Clean._clean_json_string s = py "line 1" ++ [NL; TAB] ++ py "line 2".
Proof.
  cbn zeta.
  rewrite (clean_json_string_no_quote (py "line 1" ++ [NL; TAB; 7] ++ py "line 2")).
  - reflexivity.
  - apply not_elem_of_forallb. reflexivity.
Defined.


(** ** Sessions side by side *)

Section SessionFacts.
Variable SYSTEM_PROMPT : pystr.
Variable decode_error : pystr -> pystr.
Variable json_dumps : Json.value -> Json.value -> pystr.
Variable llm_client : LLMClient.
Variable elapsed : Z.

Let handle create :=
  _handle_chat SYSTEM_PROMPT decode_error json_dumps llm_client create elapsed.

(** X15: a request never touches the history of another session,
    whatever its outcome. *)
Theorem handle_chat_other_sessions create sessions sid msg sid' :
  sid' <> sid ->
  history (handle create sessions sid msg).1 sid' = history sessions sid'.
Proof.
  intros Hne. unfold handle, _handle_chat. cbn zeta.
  rewrite <- (history_get_or_create sessions sid sid').
  set (sessions1 := match sessions !! sid with
                    | Some _ => sessions
                    | None => <[sid:=[]]> sessions
                    end).
  destruct (chat _ _ _ _ _ _ _) as [r|e]; [|done].
  destruct (status r); [|done]. simpl.
  rewrite history_insert. by rewrite decide_False.
Qed.

(** X16: what the backend is asked.  The handler calls it once, with the
    system prompt, then the stored history of this session, then the new
    user message, and nothing of any other session: two backends that
    answer this one request alike give the same store and the same
    result. *)
Theorem handle_chat_backend_request create create' sessions sid msg :
  create (session_request SYSTEM_PROMPT llm_client (history sessions sid) msg)
  = create' (session_request SYSTEM_PROMPT llm_client (history sessions sid) msg) ->
  handle create sessions sid msg = handle create' sessions sid msg.
Proof.
  intros Heq. unfold handle, _handle_chat. cbn zeta.
  set (sessions1 := match sessions !! sid with
                    | Some _ => sessions
                    | None => <[sid:=[]]> sessions
                    end).
  assert (Hh : history sessions1 sid = history sessions sid)
    by apply history_get_or_create.
  rewrite Hh.
  assert (Hchat :
    chat SYSTEM_PROMPT decode_error llm_client create elapsed
      [Message user msg] (history sessions sid)
    = chat SYSTEM_PROMPT decode_error llm_client create' elapsed
        [Message user msg] (history sessions sid)).
  { unfold chat, chat_try.
    change (request_kwargs SYSTEM_PROMPT llm_client [Message user msg]
              (history sessions sid))
      with (session_request SYSTEM_PROMPT llm_client (history sessions sid) msg).
    by rewrite Heq. }
  by rewrite Hchat.
Qed.

Lemma exchanges_app l l' :
  exchanges l = true -> exchanges l' = true -> exchanges (l ++ l') = true.
Proof.
  revert l'. induction l as [l IH] using (induction_ltof1 _ (@length Msg)).
  unfold ltof in IH. intros l' Hl Hl'.
  destruct l as [|u [|a r]]; [done|done|]. simpl in *.
  destruct (role u); try done. destruct (role a); try done.
  apply IH; [simpl; lia|done|done].
Qed.

Lemma exchanges_drop l : forall k,
  exchanges l = true -> exchanges (drop (2 * k) l) = true.
Proof.
  induction l as [l IH] using (induction_ltof1 _ (@length Msg)).
  unfold ltof in IH. intros k Hl.
  destruct k as [|k]; [done|].
  replace (2 * S k)%nat with (S (S (2 * k))) by lia.
  destruct l as [|u [|a r]]; [done|done|]. simpl in Hl |- *.
  destruct (role u); try done. destruct (role a); try done.
  apply IH; [simpl; lia|done].
Qed.

Lemma exchanges_even l :
  exchanges l = true -> exists k, length l = (2 * k)%nat.
Proof.
  induction l as [l IH] using (induction_ltof1 _ (@length Msg)).
  unfold ltof in IH. intros Hl.
  destruct l as [|u [|a r]]; [by exists 0%nat|done|]. simpl in Hl.
  destruct (role u); try done. destruct (role a); try done.
  destruct (IH r ltac:(simpl; lia) Hl) as [k Hk].
  exists (S k). simpl. lia.
Qed.

(** X17: the shape of the store.  When every stored history is made of
    exchanges (a user turn, then an assistant turn) and has at most 20
    turns, the same holds after a request: the window never cuts an
    exchange in two. *)
Theorem handle_chat_exchanges create sessions sid msg :
  map_Forall
    (fun _ turns => exchanges turns = true /\ (length turns <= 20)%nat)
    sessions ->
  map_Forall
    (fun _ turns => exchanges turns = true /\ (length turns <= 20)%nat)
    (handle create sessions sid msg).1.
Proof.
  intros Hinv. unfold handle, _handle_chat. cbn zeta.
  set (sessions1 := match sessions !! sid with
                    | Some _ => sessions
                    | None => <[sid:=[]]> sessions
                    end).
  assert (H1 : map_Forall
                 (fun _ turns => exchanges turns = true /\ (length turns <= 20)%nat)
                 sessions1).
  { unfold sessions1. destruct (sessions !! sid) eqn:E; [done|].
    apply map_Forall_insert_2; [|done]. split; [done|simpl; lia]. }
  assert (Hh : exchanges (history sessions1 sid) = true).
  { unfold history. destruct (sessions1 !! sid) as [l|] eqn:E; [|done].
    by destruct (H1 _ _ E). }
  destruct (chat _ _ _ _ _ _ _) as [r|e]; [|done].
  destruct (status r); [|done]. simpl.
  apply map_Forall_insert_2; [|done]. split; [|apply last20_length].
  unfold last20.
  set (appended := history sessions1 sid ++ _).
  assert (Ha : exchanges appended = true) by (by apply exchanges_app).
  destruct (exchanges_even _ Ha) as [k Hk]. rewrite Hk.
  replace (2 * k - 20)%nat with (2 * (k - 10))%nat by lia.
  by apply exchanges_drop.
Qed.

End SessionFacts.

(** ** Encoding and decoding *)

Section EncoderFacts.
Import Json Encoder.

Lemma hexval_hexdigit d : d < 16 -> hexval (hexdigit d) = Some d.
Proof.
  intros Hd.
  assert (H : d = 0 \/ d = 1 \/ d = 2 \/ d = 3 \/ d = 4 \/ d = 5 \/ d = 6
              \/ d = 7 \/ d = 8 \/ d = 9 \/ d = 10 \/ d = 11 \/ d = 12
              \/ d = 13 \/ d = 14 \/ d = 15) by lia.
  repeat (destruct H as [->|H]; [reflexivity|]). by subst.
Qed.

Lemma decode_u_escape n :
  n < 65536 ->
  decode_uXXXX (hexdigit (n / 4096 mod 16)) (hexdigit (n / 256 mod 16))
    (hexdigit (n / 16 mod 16)) (hexdigit (n mod 16)) = Some n.
Proof.
  intros Hn. unfold decode_uXXXX.
  rewrite !hexval_hexdigit by (apply N.mod_lt; lia).
  f_equal. zify. Z.to_euclidean_division_equations. lia.
Qed.

Lemma lor_small a :
  forallb (fun m => N.lor a m =? a + m) (map N.of_nat (seq 0 1024)) = true ->
  forall m, m < 1024 -> N.lor a m = a + m.
Proof.
  intros H m Hm. rewrite forallb_forall in H. apply N.eqb_eq, H.
  apply in_map_iff. exists (N.to_nat m). split; [lia|]. apply in_seq. lia.
Qed.

(** The two halves of a code point above U+FFFF. *)
Lemma high_half n :
  N.lor 55296 (N.land (N.shiftr n 10) 1023) = 55296 + (n / 1024) mod 1024.
Proof.
  change 1023 with (N.ones 10). rewrite N.land_ones, N.shiftr_div_pow2.
  change (2 ^ 10) with 1024.
  apply lor_small; [by vm_compute|]. apply N.mod_lt. lia.
Qed.

Lemma low_half n :
  N.lor 56320 (N.land n 1023) = 56320 + n mod 1024.
Proof.
  change 1023 with (N.ones 10). rewrite N.land_ones.
  change (2 ^ 10) with 1024.
  apply lor_small; [by vm_compute|]. apply N.mod_lt. lia.
Qed.

Lemma u_escape_eq n :
  u_escape n
  = BACKSLASH :: 117 :: hexdigit (n / 4096 mod 16) :: hexdigit (n / 256 mod 16)
      :: hexdigit (n / 16 mod 16) :: [hexdigit (n mod 16)].
Proof. reflexivity. Qed.

Lemma escape_char_escaped c : c <= 1114111 -> escaped c (escape_char c).
Proof.
  intros Hc. unfold escape_char.
  destruct (N.eqb_spec c QUOTE) as [->|Hq]; [by apply escaped_named|].
  destruct (N.eqb_spec c BACKSLASH) as [->|Hb]; [by apply escaped_named|].
  destruct (N.eqb_spec c NL) as [->|?]; [by apply escaped_named|].
  destruct (N.eqb_spec c CR) as [->|?]; [by apply escaped_named|].
  destruct (N.eqb_spec c TAB) as [->|?]; [by apply escaped_named|].
  destruct (N.eqb_spec c 12) as [->|?]; [by apply escaped_named|].
  destruct (N.eqb_spec c 8) as [->|?]; [by apply escaped_named|].
  destruct ((32 <=? c) && (c <=? 126)) eqn:Hp.
  { apply andb_true_iff in Hp as [H1 H2]. apply N.leb_le in H1.
    apply escaped_plain; [done|done|]. apply N.ltb_ge. lia. }
  destruct (N.ltb_spec c 65536) as [Hlt|Hge]; [by apply escaped_u|].
  cbn zeta. rewrite high_half, low_half.
  assert (Hn : (c - 65536) / 1024 < 1024)
    by (apply N.Div0.div_lt_upper_bound; lia).
  rewrite (N.mod_small _ _ Hn).
  pose proof (N.mod_lt (c - 65536) 1024 ltac:(lia)) as Hm.
  pose proof (N.div_mod (c - 65536) 1024 ltac:(lia)) as Hdm.
  set (x := (c - 65536) / 1024) in *. set (y := (c - 65536) mod 1024) in *.
  clearbody x y.
  apply escaped_pair.
  - unfold is_high. apply andb_true_iff. split; apply N.leb_le; lia.
  - unfold is_low. apply andb_true_iff. split; apply N.leb_le; lia.
  - lia.
  - lia.
  - unfold join_surrogates. lia.
Qed.

(** A high surrogate is written by [u_escape], a named escape and a
    character left as it is are not surrogates. *)
Lemma low_after_not_high uni r : is_high uni = false -> low_after uni r = Some None.
Proof.
  intros H. unfold low_after.
  destruct r as [|b [|u [|l1 [|l2 [|l3 [|l4 r3]]]]]]; try done.
  by rewrite H.
Qed.

Lemma low_after_u_escape uni n t :
  n < 65536 -> is_low n = false -> low_after uni (u_escape n ++ t) = Some None.
Proof.
  intros Hn Hl. rewrite u_escape_eq. simpl app. unfold low_after.
  rewrite (decode_u_escape n Hn), Hl. by destruct (is_high uni && _ && _).
Qed.

Lemma high_not_low' u : is_high u = true -> is_low u = false.
Proof.
  unfold is_high, is_low. intros [H1 H2]%andb_true_iff.
  apply N.leb_le in H2. apply andb_false_iff. left. apply N.leb_gt. lia.
Qed.

(** What is written for a character that is not a low surrogate does not
    read as the second half of a pair. *)
Lemma low_after_escaped uni c x t :
  escaped c x -> is_low c = false -> low_after uni (x ++ t) = Some None.
Proof.
  intros Hx Hl. destruct Hx as [c e He Hbs|c Hq Hb Hc|c Hc|c s1 s2 H1 H2 L1 L2 Hj].
  - by apply low_after_second.
  - by apply low_after_first.
  - by apply low_after_u_escape.
  - rewrite <- app_assoc. apply low_after_u_escape; [done|].
    by apply high_not_low'.
Qed.

Lemma low_after_pair_escape uni n t :
  is_high uni = true -> n < 65536 -> is_low n = true ->
  low_after uni (u_escape n ++ t) = Some (Some (join_surrogates uni n, t)).
Proof.
  intros Hh Hn Hl. rewrite u_escape_eq. simpl app. unfold low_after.
  by rewrite Hh, (decode_u_escape n Hn), Hl, !N.eqb_refl.
Qed.

(** [scanstring] reads back what [encode_basestring_ascii] has written. *)
Lemma encode_Lit s : forall rest,
  unpaired s = true ->
  Lit true (flat_map escape_char s ++ QUOTE :: rest) s rest.
Proof.
  induction s as [|c r IH]; intros rest Hs; [apply Lit_end|].
  simpl in Hs. apply andb_true_iff in Hs as [Hs Hr].
  apply andb_true_iff in Hs as [Hc Hpair]. apply N.leb_le in Hc.
  apply negb_true_iff in Hpair.
  specialize (IH rest Hr).
  assert (Hnext : is_high c = true ->
                  low_after c (flat_map escape_char r ++ QUOTE :: rest)
                  = Some None).
  { intros Hh. rewrite Hh in Hpair. simpl in Hpair.
    destruct r as [|c' r']; [by apply low_after_first|].
    simpl flat_map. rewrite <- app_assoc.
    simpl in Hr. apply andb_true_iff in Hr as [Hr _].
    apply andb_true_iff in Hr as [Hc' _]. apply N.leb_le in Hc'.
    eapply low_after_escaped; [by apply escape_char_escaped|done]. }
  simpl flat_map. rewrite <- app_assoc.
  destruct (escape_char_escaped c Hc)
    as [c e He Hbs|c Hq Hb Hlt|c Hlt|c s1 s2 H1 H2 L1 L2 Hj].
  - by apply Lit_esc.
  - apply Lit_char; auto.
  - rewrite u_escape_eq. simpl app.
    apply Lit_u; [by apply decode_u_escape| |done].
    destruct (is_high c) eqn:Hh; [by apply Hnext|by apply low_after_not_high].
  - rewrite <- app_assoc. rewrite (u_escape_eq s1). simpl app.
    eapply Lit_pair; [by apply decode_u_escape| |exact IH].
    rewrite <- Hj. by apply low_after_pair_escape.
Qed.

Lemma scanstring_encode s rest :
  unpaired s = true ->
  scanstring true (flat_map escape_char s ++ QUOTE :: rest) = Some (s, rest).
Proof. intros Hs. by apply scanstring_Lit, encode_Lit. Qed.

(** One pair of an object, and one more. *)
Lemma object_pairs_last b scan n s key r r1 v r2 r3 :
  scanstring b s = Some (key, r) ->
  skip_ws r = COLON :: r1 ->
  scan (skip_ws r1) = Some (v, r2) ->
  skip_ws r2 = RBRACE :: r3 ->
  object_pairs b scan (S n) s = Some ([(key, v)], r3).
Proof. intros H1 H2 H3 H4. simpl. by rewrite H1, H2, N.eqb_refl, H3, H4. Qed.

Lemma object_pairs_next b scan n s key r r1 v r2 r3 r4 ps r5 :
  scanstring b s = Some (key, r) ->
  skip_ws r = COLON :: r1 ->
  scan (skip_ws r1) = Some (v, r2) ->
  skip_ws r2 = COMMA :: r3 ->
  skip_ws r3 = QUOTE :: r4 ->
  object_pairs b scan n r4 = Some (ps, r5) ->
  object_pairs b scan (S n) s = Some ((key, v) :: ps, r5).
Proof.
  intros H1 H2 H3 H4 H5 H6. simpl.
  by rewrite H1, H2, N.eqb_refl, H3, H4, H5, H6.
Qed.

Lemma scan_once_quote b f r :
  scan_once b (S f) (QUOTE :: r)
  = match scanstring b r with
    | Some (s, r') => Some (String s, r')
    | None => None
    end.
Proof. reflexivity. Qed.

Section Turn.
Variable float_repr : pystr -> pystr -> pystr -> pystr.

(** The text of an assistant turn. *)
Lemma dumps_turn_eq a q :
  dumps_turn float_repr a q
  = LBRACE :: QUOTE :: py "answer" ++ QUOTE :: COLON :: SPACE
      :: dumps float_repr a
      ++ COMMA :: SPACE :: QUOTE :: py "sql_query" ++ QUOTE :: COLON :: SPACE
      :: dumps float_repr q ++ [RBRACE].
Proof.
  unfold dumps_turn.
  change (dumps float_repr (Object [(py "answer", a); (py "sql_query", q)]))
    with (LBRACE ::
            join_comma
              (map (fun kt => encode_basestring_ascii kt.1 ++ COLON :: SPACE :: kt.2)
                 (dict_of [(py "answer", dumps float_repr a);
                           (py "sql_query", dumps float_repr q)]))
            ++ [RBRACE]).
  unfold dict_of. simpl fold_left. simpl map. simpl join_comma.
  change (encode_basestring_ascii (py "answer"))
    with (QUOTE :: py "answer" ++ [QUOTE]).
  change (encode_basestring_ascii (py "sql_query"))
    with (QUOTE :: py "sql_query" ++ [QUOTE]).
  by list_simplifier.
Qed.

Lemma turn_text a q :
  dumps_turn float_repr (String a) (String q)
  = LBRACE :: QUOTE :: py "answer" ++ QUOTE :: COLON :: SPACE
      :: QUOTE :: flat_map escape_char a
      ++ QUOTE :: COMMA :: SPACE :: QUOTE :: py "sql_query"
      ++ QUOTE :: COLON :: SPACE
      :: QUOTE :: flat_map escape_char q ++ [QUOTE; RBRACE].
Proof.
  rewrite dumps_turn_eq. unfold dumps, encode_basestring_ascii.
  generalize (py "answer") (py "sql_query")
    (flat_map escape_char a) (flat_map escape_char q).
  intros. by list_simplifier.
Qed.

Lemma scan_once_brace b f r :
  scan_once b (S f) (LBRACE :: r) = JSONObject b (scan_once b f) f r.
Proof. reflexivity. Qed.

Lemma JSONObject_quote b scan n r :
  JSONObject b scan n (QUOTE :: r)
  = match object_pairs b scan n r with
    | Some (ps, r') => Some (Object ps, r')
    | None => None
    end.
Proof. reflexivity. Qed.

(** The text of an assistant turn decodes to what was encoded. *)
Lemma loads_dumps_turn a q :
  unpaired a = true -> unpaired q = true ->
  loads (dumps_turn float_repr (String a) (String q))
  = Some (Object [(py "answer", String a); (py "sql_query", String q)]).
Proof.
  intros Ha Hq. rewrite turn_text. unfold loads, decode.
  assert (Hka : forall rest,
            scanstring true (py "answer" ++ QUOTE :: rest)
            = Some (py "answer", rest)).
  { intros rest. by apply (scanstring_encode (py "answer") rest). }
  assert (Hkq : forall rest,
            scanstring true (py "sql_query" ++ QUOTE :: rest)
            = Some (py "sql_query", rest)).
  { intros rest. by apply (scanstring_encode (py "sql_query") rest). }
  revert Hka Hkq. generalize (py "answer") (py "sql_query"). intros ka kq Hka Hkq.
  set (text := LBRACE :: _).
  assert (Hscan : scan_once true 3 text
                  = Some (Object [(ka, String a); (kq, String q)], [])).
  { unfold text. rewrite scan_once_brace, JSONObject_quote.
    erewrite object_pairs_next; [done|apply Hka|done| | | |].
    - change (skip_ws (SPACE :: QUOTE :: ?r)) with (QUOTE :: r).
      rewrite scan_once_quote. by rewrite (scanstring_encode a).
    - done.
    - done.
    - eapply object_pairs_last; [apply Hkq|done| |].
      + change (skip_ws (SPACE :: QUOTE :: ?r)) with (QUOTE :: r).
        rewrite scan_once_quote.
        change [QUOTE; RBRACE] with (QUOTE :: [RBRACE]).
        by rewrite (scanstring_encode q).
      + done. }
  change (skip_ws text) with text.
  rewrite (scan_once_length _ _ (S (length text)) _ _ _ Hscan); [done|lia].
Qed.

(** The encoder writes characters from the space to the tilde only. *)
Lemma hexdigit_printable d : d < 16 -> printable (hexdigit d) = true.
Proof.
  intros Hd. unfold hexdigit, printable.
  destruct (N.ltb_spec d 10); apply andb_true_iff; split; apply N.leb_le; lia.
Qed.

Lemma u_escape_printable n :
  Forall (fun c => printable c = true) (u_escape n).
Proof.
  rewrite u_escape_eq.
  repeat (constructor; [try done; apply hexdigit_printable, N.mod_lt; lia|]).
  constructor.
Qed.

Lemma escape_char_printable c :
  Forall (fun c => printable c = true) (escape_char c).
Proof.
  unfold escape_char.
  destruct (c =? QUOTE); [by repeat constructor|].
  destruct (c =? BACKSLASH); [by repeat constructor|].
  destruct (c =? NL); [by repeat constructor|].
  destruct (c =? CR); [by repeat constructor|].
  destruct (c =? TAB); [by repeat constructor|].
  destruct (c =? 12); [by repeat constructor|].
  destruct (c =? 8); [by repeat constructor|].
  destruct ((32 <=? c) && (c <=? 126)) eqn:Hp; [by repeat constructor|].
  destruct (c <? 65536); [apply u_escape_printable|].
  cbn zeta. apply Forall_app. split; apply u_escape_printable.
Qed.

Lemma encode_printable s :
  Forall (fun c => printable c = true) (flat_map escape_char s).
Proof.
  induction s as [|c s IH]; simpl; [constructor|].
  apply Forall_app. split; [apply escape_char_printable|done].
Qed.

Lemma forallb_Forall {A} (p : A -> bool) l :
  forallb p l = true -> Forall (fun c => p c = true) l.
Proof.
  induction l as [|x l IH]; simpl; [constructor|].
  intros [? ?]%andb_true_iff. constructor; auto.
Qed.

Lemma turn_printable a q :
  Forall (fun c => printable c = true)
    (dumps_turn float_repr (String a) (String q)).
Proof.
  rewrite turn_text.
  repeat first
    [ apply Forall_cons; split; [done|]
    | apply Forall_app; split;
      [first [apply encode_printable | by apply forallb_Forall]|] ].
  by repeat constructor.
Qed.

Lemma printable_free s :
  Forall (fun c => printable c = true) s ->
  Forall (fun c => Clean.is_ctl c = false) s /\ (NL ∉ s) /\ (TAB ∉ s).
Proof.
  induction 1 as [|c s Hc _ (IH1 & IH2 & IH3)].
  { split; [constructor|]. split; apply not_elem_of_nil. }
  unfold printable in Hc. apply andb_true_iff in Hc as [H1 H2].
  apply N.leb_le in H1, H2.
  split; [constructor; [|done]|].
  - unfold Clean.is_ctl.
    repeat (apply orb_false_iff; split);
      try (apply N.leb_gt; lia); try (apply N.eqb_neq; unfold DEL; lia).
    apply andb_false_iff. right. apply N.leb_gt. lia.
  - split; apply not_elem_of_cons; (split; [unfold NL, TAB; lia|done]).
Qed.

Lemma scan_from_plain s : forall ins esc,
  NL ∉ s -> TAB ∉ s -> Clean.scan_from ins esc s = s.
Proof.
  induction s as [|c s IH]; intros ins esc Hn Ht; simpl; [done|].
  apply not_elem_of_cons in Hn as [Hn1 Hn]. apply not_elem_of_cons in Ht as [Ht1 Ht].
  destruct esc; [by rewrite IH|].
  destruct (c =? BACKSLASH); [by rewrite IH|].
  destruct (c =? QUOTE); [by rewrite IH|].
  destruct (N.eqb_spec c NL); [done|]. destruct (N.eqb_spec c TAB); [done|].
  rewrite !andb_false_r. by rewrite IH.
Qed.

(** The text of a turn goes through the three steps before [json.loads]
    as it is. *)
Lemma sanitized_turn a q :
  sanitized (dumps_turn float_repr (String a) (String q))
  = dumps_turn float_repr (String a) (String q).
Proof.
  pose proof (turn_printable a q) as Hp.
  destruct (printable_free _ Hp) as (Hctl & Hnl & Htab).
  unfold sanitized.
  assert (Hstrip : Str.strip (dumps_turn float_repr (String a) (String q))
                   = dumps_turn float_repr (String a) (String q)).
  { assert (Hshape : exists m,
              dumps_turn float_repr (String a) (String q)
              = LBRACE :: m ++ [RBRACE]).
    { rewrite turn_text.
      exists (QUOTE :: py "answer" ++ QUOTE :: COLON :: SPACE :: QUOTE
                :: flat_map escape_char a
                ++ QUOTE :: COMMA :: SPACE :: QUOTE :: py "sql_query"
                ++ QUOTE :: COLON :: SPACE :: QUOTE
                :: flat_map escape_char q ++ [QUOTE]).
      generalize (py "answer") (py "sql_query")
        (flat_map escape_char a) (flat_map escape_char q).
      intros. by list_simplifier. }
    destruct Hshape as [m Hm].
    by eapply (strip_id _ LBRACE RBRACE). }
  rewrite Hstrip.
  assert (Hfence : strip_fence (dumps_turn float_repr (String a) (String q))
                   = dumps_turn float_repr (String a) (String q)).
  { rewrite turn_text. apply strip_fence_brace. }
  rewrite Hfence, clean_json_string_eq, remove_ctl_fix by done.
  by apply scan_from_plain.
Qed.

End Turn.
End EncoderFacts.

Section TurnFacts.
Variable SYSTEM_PROMPT : pystr.
Variable decode_error : pystr -> pystr.
Variable float_repr : pystr -> pystr -> pystr -> pystr.
Variable llm_client : LLMClient.
Variable create : kwargs -> outcome.
Variable elapsed : Z.

Let handle :=
  _handle_chat SYSTEM_PROMPT decode_error (Encoder.dumps_turn float_repr)
    llm_client create elapsed.
Let run := chat SYSTEM_PROMPT decode_error llm_client create elapsed.
Let kw := request_kwargs SYSTEM_PROMPT llm_client.

(** X18: what an exchange leaves in the store can be read back.  After a
    request whose result has status [ok], the history of the session ends
    with the user message and an assistant turn; when the answer and the
    query are strings in which no high surrogate stands before a low one,
    [json.loads] makes of the content of that turn the object with these
    two strings under [answer] and [sql_query]. *)
Theorem handle_chat_turn_decodes sessions sid msg r a q :
  (handle sessions sid msg).2 = inl r ->
  status r = ok ->
  natural_language_answer r = Json.String a ->
  sql_query r = Json.String q ->
  unpaired a = true -> unpaired q = true ->
  exists earlier turn,
    history (handle sessions sid msg).1 sid
    = earlier ++ [Message user msg; Message assistant turn]
    /\ Json.loads turn
       = Some (Json.Object [(py "answer", Json.String a);
                            (py "sql_query", Json.String q)]).
Proof.
  unfold handle, _handle_chat. cbn zeta.
  set (sessions1 := match sessions !! sid with
                    | Some _ => sessions
                    | None => <[sid:=[]]> sessions
                    end).
  destruct (chat _ _ _ _ _ _ _) as [r'|e]; [|done].
  destruct (status r') eqn:Hst; simpl; intros [= ->] Hok Ha Hq Ua Uq;
    [|congruence].
  rewrite history_insert, decide_True by done. rewrite Ha, Hq.
  unfold last20. rewrite length_app. simpl length.
  set (h := history sessions1 sid).
  exists (drop (length h + 2 - 20) h), (Encoder.dumps_turn float_repr (Json.String a) (Json.String q)).
  split; [|by apply loads_dumps_turn].
  rewrite drop_app_le by lia. done.
Qed.

(** X19: a stored turn is a reply the normalizer takes.  When the backend
    answers with the very text the server stores for an answer and a
    query (strings as above), [chat] returns status [ok] with this answer
    and this query. *)
Theorem chat_reads_turn messages session_history a q usage :
  create (kw messages session_history)
  = Returns (Some (Encoder.dumps_turn float_repr (Json.String a) (Json.String q)))
      usage ->
  unpaired a = true -> unpaired q = true ->
  run messages session_history
  = inl {| natural_language_answer := Json.String a;
           sql_query := Json.String q;
           token_usage := usage_of usage;
           latency_ms := elapsed;
           provider := self_provider llm_client;
           model := self_model llm_client;
           status := ok;
           error_message := None |}.
Proof.
  intros Hc Ua Uq. unfold run.
  rewrite (chat_decoded SYSTEM_PROMPT decode_error llm_client create elapsed
             _ _ _ _ [(py "answer", Json.String a); (py "sql_query", Json.String q)] Hc).
  - done.
  - rewrite sanitized_turn. by apply loads_dumps_turn.
Qed.

End TurnFacts.

(** ** Requests *)

Section HandlerFacts.
Variable SYSTEM_PROMPT : pystr.
Variable decode_error : pystr -> pystr.
Variable float_repr : pystr -> pystr -> pystr -> pystr.
Variable ChatRequest_init : Json.value -> pystr + Models.ChatRequest.
Variable ChatResponse_init : ChatResult -> pystr + Models.ChatResponse.
Variable llm_client : LLMClient.
Variable create : kwargs -> outcome.
Variable elapsed : Z.

Let post :=
  do_POST SYSTEM_PROMPT decode_error float_repr ChatRequest_init
    ChatResponse_init llm_client create elapsed.
Let run := chat SYSTEM_PROMPT decode_error llm_client create elapsed.

(** [chat] returns. *)
Lemma chat_returns messages session_history :
  exists r, run messages session_history = inl r.
Proof.
  unfold run, chat, chat_try.
  destruct (create _) as [[m|m]|[c|] u]; simpl; eauto.
  destruct (Json.loads _) as [[]|]; simpl; eauto.
Qed.

(** The handler, by the result of [chat]. *)
Lemma handle_chat_request_eq sessions body data request r :
  Json.loads body = Some data ->
  ChatRequest_init data = inr request ->
  run [Message user (Models.message request)]
    (history sessions (Models.session_id request)) = inl r ->
  let sid := Models.session_id request in
  let sessions1 :=
    match sessions !! sid with
    | None => <[sid := []]> sessions
    | Some _ => sessions
    end in
  let sessions2 :=
    match status r with
    | ok =>
        <[sid := last20
                   (history sessions sid
                      ++ [Message user (Models.message request);
                          Message assistant
                            (Encoder.dumps_turn float_repr
                               (natural_language_answer r) (sql_query r))])]>
          sessions1
    | error => sessions1
    end in
  post sessions (py "/api/chat") body
  = (sessions2,
     match ChatResponse_init r with
     | inr response => {| code := 200; data := ResponseDict response |}
     | inl e_str => {| code := 500; data := ErrorDict e_str |}
     end).
Proof.
  intros Hb Hd Hr. cbn zeta. unfold post, do_POST.
  rewrite decide_True by done. unfold handle_chat_request.
  rewrite Hb, Hd. unfold _handle_chat. cbn zeta.
  rewrite history_get_or_create. unfold run in Hr. rewrite Hr.
  destruct (status r); simpl; by destruct (ChatResponse_init r).
Qed.


(** X21: the only way the store changes.  When a request leaves a
    session with another history than before, it was a request to
    [/api/chat] with a JSON body that [ChatRequest] took, for this
    session, and [chat] returned status [ok]. *)
Theorem do_POST_changes_history sessions path body sid :
  history (post sessions path body).1 sid <> history sessions sid ->
  path = py "/api/chat"
  /\ exists data request r,
       Json.loads body = Some data
       /\ ChatRequest_init data = inr request
       /\ Models.session_id request = sid
       /\ run [Message user (Models.message request)] (history sessions sid)
          = inl r
       /\ status r = ok.
Proof.
  unfold post, do_POST.
  destruct (decide (path = py "/api/chat")) as [->|Hp]; [|done].
  intros Hne. split; [done|]. revert Hne.
  unfold handle_chat_request.
  destruct (Json.loads body) as [data|] eqn:Hb; [|done].
  destruct (ChatRequest_init data) as [e|request] eqn:Hd; [done|].
  destruct (chat_returns [Message user (Models.message request)]
              (history sessions (Models.session_id request))) as [r Hr].
  pose proof (handle_chat_request_eq sessions body data request r Hb Hd Hr) as H.
  cbn zeta in H. unfold post, do_POST in H. rewrite decide_True in H by done.
  unfold handle_chat_request in H. rewrite Hb, Hd in H. rewrite H. simpl.
  intros Hne. exists data, request, r.
  destruct (decide (Models.session_id request = sid)) as [<-|Hs].
  - repeat split; try done.
    destruct (status r); [done|]. exfalso. apply Hne.
    apply history_get_or_create.
  - exfalso. apply Hne.
    rewrite <- (history_get_or_create sessions (Models.session_id request) sid).
    destruct (status r); [|done].
    rewrite history_insert. by rewrite decide_False.
Qed.

(** X22: the store is updated before the response is validated.  When
    [chat] returns status [ok] and [ChatResponse] refuses the result, the
    client gets a 500 with the message of the exception while the
    exchange is in the history of the session all the same. *)
Theorem do_POST_stores_before_validation sessions body data request r e_str :
  Json.loads body = Some data ->
  ChatRequest_init data = inr request ->
  run [Message user (Models.message request)]
    (history sessions (Models.session_id request)) = inl r ->
  status r = ok ->
  ChatResponse_init r = inl e_str ->
  (post sessions (py "/api/chat") body).2
  = {| code := 500; data := ErrorDict e_str |}
  /\ history (post sessions (py "/api/chat") body).1 (Models.session_id request)
     = last20
         (history sessions (Models.session_id request)
            ++ [Message user (Models.message request);
                Message assistant
                  (Encoder.dumps_turn float_repr
                     (natural_language_answer r) (sql_query r))]).
Proof.
  intros Hb Hd Hr Hok He.
  rewrite (handle_chat_request_eq sessions body data request r Hb Hd Hr).
  rewrite Hok, He. split; [done|].
  simpl. rewrite history_insert. by rewrite decide_True.
Qed.

End HandlerFacts.

(** ** Raw newlines and tabs on the fallback path *)

Section FallbackRaw.












Section FallbackRawChat.
Variable SYSTEM_PROMPT : pystr.
Variable decode_error : pystr -> pystr.
Variable self : LLMClient.
Variable create : kwargs -> outcome.
Variable elapsed : Z.

Let run := chat SYSTEM_PROMPT decode_error self create elapsed.
Let kw := request_kwargs SYSTEM_PROMPT self.


End FallbackRawChat.
End FallbackRaw.


(** ** Closed instances for sessions, turns and requests *)

Lemma handle_chat_other_sessions_witness :
  history
    (HttpSample.handle (Sample.replies (pyq "{'answer': 'two'}"))
       Sample.store (py "session-2") (py "count")).1 (py "session-1")
  = history Sample.store (py "session-1").
Proof.
  apply (handle_chat_other_sessions Sample.prompt Sample.decode_error
           (Encoder.dumps_turn HttpSample.float_repr) Sample.client 12).
  done.
Defined.

Lemma handle_chat_backend_request_witness :
  let reply := pyq "{'answer': 'two'}" in
  HttpSample.moody reply
    (session_request Sample.prompt Sample.client [] (py "count"))
  = Raises (OtherException (py "busy"))
  /\ HttpSample.handle (Sample.replies reply) Sample.store
       (py "session-1") (py "count")
     = HttpSample.handle (HttpSample.moody reply) Sample.store
         (py "session-1") (py "count").
Proof.
  cbn zeta. split; [vm_compute; reflexivity|].
  apply (handle_chat_backend_request Sample.prompt Sample.decode_error
           (Encoder.dumps_turn HttpSample.float_repr) Sample.client 12).
  vm_compute. reflexivity.
Defined.

Lemma handle_chat_exchanges_witness :
  map_Forall
    (fun _ turns => exchanges turns = true /\ (length turns <= 20)%nat)
    (HttpSample.handle (Sample.replies (pyq "{'answer': 'two'}"))
       Sample.store (py "session-1") (py "count")).1.
Proof.
  apply (handle_chat_exchanges Sample.prompt Sample.decode_error
           (Encoder.dumps_turn HttpSample.float_repr) Sample.client 12).
  apply map_Forall_singleton. split; [reflexivity|simpl; lia].
Defined.

Lemma handle_chat_turn_decodes_witness :
  let reply := pyq "{'answer': 'two'}" in
  exists earlier turn,
    history
      (HttpSample.handle (Sample.replies reply) Sample.store
         (py "session-1") (py "count")).1 (py "session-1")
    = earlier ++ [Message user (py "count"); Message assistant turn]
    /\ Json.loads turn
       = Some (Json.Object [(py "answer", Json.String (py "two"));
                            (py "sql_query", Json.String [])]).
Proof.
  cbn zeta.
  eapply (handle_chat_turn_decodes Sample.prompt Sample.decode_error
            HttpSample.float_repr Sample.client
            (Sample.replies (pyq "{'answer': 'two'}")) 12 Sample.store
            (py "session-1") (py "count")
            {| natural_language_answer := Json.String (py "two");
               sql_query := Json.String [];
               token_usage := ZERO_USAGE;
               latency_ms := 12;
               provider := ollama;
               model := py "llama3.2";
               status := ok;
               error_message := None |});
    vm_compute; reflexivity.
Defined.

Lemma chat_reads_turn_witness :
  let turn :=
    Encoder.dumps_turn HttpSample.float_repr
      (Json.String (pyq "He said 'two'" ++ [NL; 233; 128512]))
      (Json.String (py "SELECT 2")) in
  turn
  = pyq "{'answer': 'He said \'two\'\n\u00e9\ud83d\ude00', 'sql_query': 'SELECT 2'}"
  /\ Sample.ask (Sample.replies turn)
     = inl {| natural_language_answer :=
                Json.String (pyq "He said 'two'" ++ [NL; 233; 128512]);
              sql_query := Json.String (py "SELECT 2");
              token_usage := ZERO_USAGE;
              latency_ms := 12;
              provider := ollama;
              model := py "llama3.2";
              status := ok;
              error_message := None |}.
Proof.
  cbn zeta. split; [vm_compute; reflexivity|].
  apply (chat_reads_turn Sample.prompt Sample.decode_error
           HttpSample.float_repr Sample.client
           (Sample.replies
              (Encoder.dumps_turn HttpSample.float_repr
                 (Json.String (pyq "He said 'two'" ++ [NL; 233; 128512]))
                 (Json.String (py "SELECT 2"))))
           12 Sample.question [] _ _ None);
    vm_compute; reflexivity.
Defined.

(** Without the condition on surrogates the text reads back as another
    string: a high surrogate before a low one comes back as one
    character. *)
Example turn_joins_surrogates :
  Json.loads
    (Encoder.dumps_turn HttpSample.float_repr
       (Json.String [55357; 56832]) (Json.String []))
  = Some (Json.Object [(py "answer", Json.String [128512]);
                       (py "sql_query", Json.String [])]).
Proof. vm_compute. reflexivity. Qed.

Lemma do_POST_changes_history_witness :
  let reply := pyq "{'answer': 'two'}" in
  length
    (history
       (HttpSample.do_POST (Sample.replies reply) Sample.store
          (py "/api/chat") HttpSample.body).1 (py "session-1")) = 4%nat
  /\ length (history Sample.store (py "session-1")) = 2%nat
  /\ exists data request r,
       Json.loads HttpSample.body = Some data
       /\ HttpSample.ChatRequest_init data = inr request
       /\ Models.session_id request = py "session-1"
       /\ chat Sample.prompt Sample.decode_error Sample.client
            (Sample.replies reply) 12
            [Message user (Models.message request)]
            (history Sample.store (py "session-1")) = inl r
       /\ status r = ok.
Proof.
  cbn zeta. split; [vm_compute; reflexivity|]. split; [vm_compute; reflexivity|].
  eapply (do_POST_changes_history Sample.prompt Sample.decode_error
            HttpSample.float_repr HttpSample.ChatRequest_init
            HttpSample.ChatResponse_init Sample.client
            (Sample.replies (pyq "{'answer': 'two'}")) 12
            Sample.store (py "/api/chat") HttpSample.body (py "session-1")).
  intros H. apply (f_equal length) in H. vm_compute in H. discriminate H.
Defined.

Lemma do_POST_stores_before_validation_witness :
  let reply := pyq "{'answer': 42}" in
  let post := HttpSample.do_POST (Sample.replies reply) in
  (post Sample.store (py "/api/chat") HttpSample.body).2
  = {| code := 500;
       data := ErrorDict (py "validation error for ChatResponse") |}
  /\ history (post Sample.store (py "/api/chat") HttpSample.body).1
       (py "session-1")
     = [Message user (py "hello"); Message assistant (pyq "{'answer': 'hi'}");
        Message user (py "count");
        Message assistant (pyq "{'answer': 42, 'sql_query': ''}")].
Proof.
  cbn zeta.
  destruct (do_POST_stores_before_validation Sample.prompt Sample.decode_error
              HttpSample.float_repr HttpSample.ChatRequest_init
              HttpSample.ChatResponse_init Sample.client
              (Sample.replies (pyq "{'answer': 42}")) 12
              Sample.store HttpSample.body
              (Json.Object [(py "session_id", Json.String (py "session-1"));
                            (py "message", Json.String (py "count"))])
              {| Models.session_id := py "session-1";
                 Models.message := py "count";
                 Models.context := None |}
              {| natural_language_answer := Json.Number (py "42") [] [];
                 sql_query := Json.String [];
                 token_usage := ZERO_USAGE;
                 latency_ms := 12;
                 provider := ollama;
                 model := py "llama3.2";
                 status := ok;
                 error_message := None |}
              (py "validation error for ChatResponse"))
    as [H1 H2]; try (vm_compute; reflexivity).
  split; [exact H1|]. etrans; [exact H2|]. vm_compute. reflexivity.
Defined.

(** ** When [load_env] returns *)

Section LoadReturns.
Variable fsencodable : N -> bool.

(** The characters of a line before its line break are characters of the
    file. *)
Lemma file_lines_elem text :
  Forall (fun line => exists body,
            (line = body ++ [NL] \/ line = body)
            /\ forall c, c ∈ body -> c ∈ text)
    (file_lines text).
Proof.
  induction text as [text IH] using (induction_ltof1 _ (@length N)).
  unfold ltof in IH. destruct text as [|c r]; [constructor|]. simpl.
  assert (Hnil : forall t : pystr, exists body : pystr,
            ([NL] = body ++ [NL] \/ [NL] = body)
            /\ forall x, x ∈ body -> x ∈ t).
  { intros t. exists []. split; [by left|]. by intros x ?%elem_of_nil. }
  assert (Hmono : forall (t : pystr) l,
            (forall x, x ∈ t -> x ∈ c :: r) ->
            Forall (fun line => exists body,
                      (line = body ++ [NL] \/ line = body)
                      /\ forall x, x ∈ body -> x ∈ t) l ->
            Forall (fun line => exists body,
                      (line = body ++ [NL] \/ line = body)
                      /\ forall x, x ∈ body -> x ∈ c :: r) l).
  { intros t l Hsub Hl. eapply Forall_impl; [exact Hl|].
    intros line (body & Hb & Hin). exists body. split; [done|]. auto. }
  destruct (N.eqb_spec c NL) as [->|Hn].
  { constructor; [apply Hnil|].
    apply (Hmono r); [by intros x Hx; apply elem_of_cons; right|apply IH; simpl; lia]. }
  destruct (N.eqb_spec c CR) as [->|Hcr].
  { destruct r as [|c2 r2]; [repeat constructor; apply Hnil|].
    destruct (c2 =? NL); (constructor; [apply Hnil|]).
    - apply (Hmono r2);
        [by intros x Hx; do 2 (apply elem_of_cons; right)|apply IH; simpl; lia].
    - apply (Hmono (c2 :: r2));
        [by intros x Hx; apply elem_of_cons; right|apply IH; simpl; lia]. }
  pose proof (IH r ltac:(simpl; lia)) as Hr.
  destruct (file_lines r) as [|l ls].
  { repeat constructor. exists [c]. split; [by right|].
    intros x [->|Hx]%elem_of_cons;
      [by apply elem_of_cons; left|by apply elem_of_nil in Hx]. }
  inversion Hr as [|? ? (body & Hbody & Hin) Hls]; subst.
  constructor.
  - exists (c :: body). split.
    + destruct Hbody as [->| ->]; [by left|by right].
    + intros x [->|Hx]%elem_of_cons; [by apply elem_of_cons; left|].
      apply elem_of_cons. right. by apply Hin.
  - apply (Hmono r); [by intros x Hx; apply elem_of_cons; right|done].
Qed.

(** The characters of a name and of a value are characters of the file. *)
Lemma file_line_elem text line key value c :
  line ∈ file_lines text ->
  parse_line line = Some (key, value) ->
  c ∈ key \/ c ∈ value -> c ∈ text.
Proof.
  intros Hin Hp Hc.
  pose proof (file_lines_elem text) as Hall. rewrite Forall_forall in Hall.
  destruct (Hall line Hin) as (body & Hl & Hsub).
  apply Hsub. pose proof (parse_line_elem _ _ _ _ Hp Hc) as Hs.
  destruct Hl as [->| ->]; [by apply strip_line_body|by apply strip_elem].
Qed.

Lemma load_lines_returns lines : forall environ loaded,
  Forall (fun line => forall k v, parse_line line = Some (k, v) ->
            fsencodes fsencodable k = true /\ fsencodes fsencodable v = true
            /\ StrOps.contains NUL k = false /\ StrOps.contains NUL v = false)
    lines ->
  exists loaded', (load_lines fsencodable lines environ loaded).2 = inl loaded'.
Proof.
  induction lines as [|line rest IH]; intros environ loaded Hall; [by eexists|].
  inversion Hall as [|? ? Hl Hrest]; subst. simpl.
  destruct (parse_line line) as [[k v]|]; [|by apply IH].
  destruct (Hl k v eq_refl) as (Hk & Hv & Nk & Nv).
  destruct (StrOps.truthy k && StrOps.truthy v); [|by apply IH].
  rewrite Hk, Hv, Nk, Nv. simpl.
  destruct (environ !! k); by apply IH.
Qed.

(** X24: when [load_env] returns.  For a file whose characters the file
    system encoding can encode and which holds no null character,
    [load_env] raises nothing and returns a dict. *)
Theorem load_env_returns text environ :
  fsencodes fsencodable text = true ->
  NUL ∉ text ->
  exists loaded, (load_env fsencodable (Some text) environ).2 = inl loaded.
Proof.
  intros Henc Hnul. unfold load_env. apply load_lines_returns.
  apply Forall_forall. intros line Hin k v Hp.
  assert (Hsub : forall c, c ∈ k \/ c ∈ v -> c ∈ text)
    by (intros c; by apply (file_line_elem text line k v)).
  unfold fsencodes in *. rewrite forallb_forall in Henc.
  repeat split.
  - apply forallb_forall. intros c Hc. apply Henc.
    apply list_elem_of_In. apply Hsub. left. by apply list_elem_of_In.
  - apply forallb_forall. intros c Hc. apply Henc.
    apply list_elem_of_In. apply Hsub. right. by apply list_elem_of_In.
  - apply contains_false. intros Hc. apply Hnul, Hsub. by left.
  - apply contains_false. intros Hc. apply Hnul, Hsub. by right.
Qed.

End LoadReturns.

Lemma load_env_returns_witness :
  exists loaded,
    (load_env EnvSample.fsencodable (Some EnvSample.dotenv) EnvSample.environ).2
    = inl loaded.
Proof.
  apply (load_env_returns EnvSample.fsencodable).
  - vm_compute. reflexivity.
  - apply not_elem_of_forallb. reflexivity.
Defined.

(** A null character in a value makes [os.environ] raise, and what the
    lines before have set stays set. *)
Example load_env_raises :
  load_env EnvSample.fsencodable
    (Some (py "A=1" ++ [NL] ++ py "B=x" ++ [NUL] ++ py "y" ++ [NL])) ∅
  = ({[ py "A" := py "1" ]}, inr ValueError).
Proof. vm_compute. reflexivity. Qed.

(** ** The fields of a result *)

Section ResultFacts.
Variable SYSTEM_PROMPT : pystr.
Variable decode_error : pystr -> pystr.
Variable self : LLMClient.
Variable create : kwargs -> outcome.
Variable elapsed : Z.

Let run := chat SYSTEM_PROMPT decode_error self create elapsed.
Let kw := request_kwargs SYSTEM_PROMPT self.

Lemma on_decode_error_fields e_str loc :
  let r := on_decode_error self elapsed e_str loc in
  provider r = self_provider self /\ model r = self_model self
  /\ latency_ms r = elapsed
  /\ token_usage r = default ZERO_USAGE (l_token_usage loc)
  /\ (status r = error -> sql_query r = Json.String [])
  /\ exists a, natural_language_answer r = Json.String a.
Proof.
  unfold on_decode_error. cbn zeta.
  destruct (recovered (py "answer") _); simpl; repeat split; eauto; done.
Qed.

(** X25: the fields every result has.  A result names the provider and
    the model of the client and the elapsed time.  Its token counts are
    those of the reply ([None] read as zero), or zero when the call
    raised, the reply had no text or its text was JSON but not an object.
    With status [error] the query is the empty string and the answer is
    a string. *)
Theorem chat_result_fields messages session_history r :
  run messages session_history = inl r ->
  provider r = self_provider self /\ model r = self_model self
  /\ latency_ms r = elapsed
  /\ (token_usage r = ZERO_USAGE
      \/ exists content usage,
           create (kw messages session_history) = Returns (Some content) usage
           /\ token_usage r = usage_of usage)
  /\ (status r = error ->
      sql_query r = Json.String []
      /\ exists a, natural_language_answer r = Json.String a).
Proof.
  unfold run, chat, chat_try, kw.
  destruct (create _) as [[m|m]|[c|] u] eqn:Hc; simpl.
  - intros [= <-].
    destruct (on_decode_error_fields m {| l_content := None; l_token_usage := None |})
      as (H1 & H2 & H3 & H4 & H5 & H6).
    repeat split; auto.
  - intros [= <-]. simpl. repeat split; eauto.
  - fold (usage_of u).
    assert (Hright : forall t, t = usage_of u ->
              t = ZERO_USAGE
              \/ exists content usage,
                   Returns (Some c) u = Returns (Some content) usage
                   /\ t = usage_of usage).
    { intros t ->. right. by exists c, u. }
    destruct (Json.loads _) as [v|]; simpl.
    + destruct v; simpl; intros [= <-]; simpl;
        (split; [done|split; [done|split; [done|split]]]);
        try (left; done); try (by apply Hright); try done;
        (intros _; split; [done|by eexists]).
    + intros [= <-].
      destruct (on_decode_error_fields
                  (decode_error (Clean._clean_json_string (strip_fence (Str.strip c))))
                  {| l_content := Some (Clean._clean_json_string (strip_fence (Str.strip c)));
                     l_token_usage := Some (usage_of u) |})
        as (H1 & H2 & H3 & H4 & H5 & H6).
      split; [done|split; [done|split; [done|split; [by apply Hright|]]]].
      intros He. split; [by apply H5|done].
  - intros [= <-]. simpl. repeat split; eauto.
Qed.

End ResultFacts.

Lemma chat_result_fields_witness :
  let r := on_exception Sample.client 12 (py "connection refused") in
  Sample.ask (Sample.fails (py "connection refused")) = inl r
  /\ provider r = ollama /\ model r = py "llama3.2" /\ latency_ms r = 12%Z
  /\ (token_usage r = ZERO_USAGE
      \/ exists content usage,
           Sample.fails (py "connection refused")
             (request_kwargs Sample.prompt Sample.client Sample.question [])
           = Returns (Some content) usage
           /\ token_usage r = usage_of usage)
  /\ (status r = error ->
      sql_query r = Json.String []
      /\ exists a, natural_language_answer r = Json.String a).
Proof.
  cbn zeta. split; [reflexivity|].
  exact (chat_result_fields Sample.prompt Sample.decode_error Sample.client
           (Sample.fails (py "connection refused")) 12 Sample.question [] _
           eq_refl).
Defined.

(** ** A key the fallback does not find *)

Section RecoveredFacts.

Lemma search_nil r :
  Re.search r []
  = match Re.match_here r [] with Some m => Some m | None => None end.
Proof. reflexivity. Qed.

Lemma search_cons r c s :
  Re.search r (c :: s)
  = match Re.match_here r (c :: s) with
    | Some m => Some m
    | None => Re.search r s
    end.
Proof. reflexivity. Qed.

Lemma search_none key text :
  occurs (QUOTE :: key ++ [QUOTE]) text = false ->
  Re.search (field_re key) text = None.
Proof.
  induction text as [|c text IH].
  - intros _. by rewrite search_nil, match_field_none.
  - change (occurs ?p (c :: text))
      with (Str.startswith p (c :: text) || occurs p text).
    intros [Hs Ho]%orb_false_iff.
    rewrite search_cons, match_field_none by done. by apply IH.
Qed.

(** X26: a key that is missing.  When the quoted key does not occur in
    the text handed to the fallback, what the fallback recovers for it is
    the empty string. *)
Theorem recovered_missing_key key raw_content :
  occurs (QUOTE :: key ++ [QUOTE]) raw_content = false ->
  recovered key raw_content = [].
Proof.
  intros Ho. unfold recovered, field_search.
  rewrite search_none by done. by destruct raw_content.
Qed.

End RecoveredFacts.

Lemma recovered_missing_key_witness :
  let raw_content := pyq "{'answer': 'hi', 'sql': 'SELECT 1', }" in
  Json.loads raw_content = None
  /\ recovered (py "answer") raw_content = py "hi"
  /\ recovered (py "sql_query") raw_content = [].
Proof.
  cbn zeta. split; [vm_compute; reflexivity|]. split; [vm_compute; reflexivity|].
  apply recovered_missing_key. vm_compute. reflexivity.
Defined.
